(** * Intelligent traffic monitoring: analyzer pipeline and traffic-light controller

    A shallow embedding of [traffic_logic/traffic_light.py] and
    [analyzer/analyzer.py], and the properties of the controller's state
    machine, of the green-duration arithmetic and of the frame pipeline.

    Conventions.
    - Python dictionaries are finite maps from strings to Python values.
    - Durations and clock readings are Python numbers ([int] or [float]).
      Every number the program computes from a vehicle count is a multiple of
      one half, which binary floating point represents exactly (for counts of
      magnitude below 2^53), so numbers are modelled as canonical rationals
      [Qc]; [5] and [5.0] are the same number. An integer too large for a
      float makes the conversion raise, as in [int_to_float] below.
    - The corners of the drawings are single-precision products, truncated;
      a drawing records the detection row and the frame shape they are
      computed from, and the products themselves are not evaluated.
    - A raised exception is [None]. *)

From Stdlib Require Import QArith Qcanon Ascii String.
From stdpp Require Import base numbers strings gmap list sorting.

Local Open Scope Z_scope.

(** ** Python values *)

Inductive pyval : Type :=
  | PyInt (n : Z)
  | PyBool (b : bool)
  | PyStr (s : string).

Global Instance pyval_eq_dec : EqDecision pyval.
Proof. solve_decision. Defined.

(** The numeric reading of a value in an arithmetic expression with a float:
    [bool] is a subclass of [int]; a string raises [TypeError]. *)
Definition as_number (v : pyval) : option Z :=
  match v with
  | PyInt n => Some n
  | PyBool b => Some (Z.b2z b)
  | PyStr _ => None
  end.

(** The conversion of an [int] to a [float] that an arithmetic operation
    with a float operand makes. It raises [OverflowError] for an integer that
    rounds to 2^1024 or beyond, which are those of magnitude 2^1024 - 2^970
    and more. Below that the result is the integer rounded to 53 bits, the
    integer itself up to 2^53; the model keeps the integer itself throughout,
    since the only use of the value is a sum that is compared with 5 and
    with 20, which the rounding of so large a number does not change. *)
Definition float_overflow : Z := 2 ^ 1024 - 2 ^ 970.

Definition int_to_float (n : Z) : option Qc :=
  if decide (Z.abs n < float_overflow) then Some (Qc_of_Z n) else None.

(** [d.get(key, default)] *)
Definition dict_get (d : gmap string pyval) (key : string) (default : pyval) : pyval :=
  match d !! key with
  | Some v => v
  | None => default
  end.

(** Python's [max(a, b)] and [min(a, b)] on two numbers: the first argument
    is kept unless the second is strictly larger (smaller). *)
Definition py_max (a b : Qc) : Qc := if decide (a < b)%Qc then b else a.
Definition py_min (a b : Qc) : Qc := if decide (b < a)%Qc then b else a.

(** The float literal [0.5]. *)
Definition half : Qc := Q2Qc (1 # 2).

(** The clamp of the specification, for comparison with the code's
    [max(base, min(x, max))]. *)
Definition clamp (x lo hi : Qc) : Qc :=
  if decide (x < lo)%Qc then lo else if decide (hi < x)%Qc then hi else x.

Module traffic_light.

(** *** [class TrafficLightController] *)

Record TrafficLightController : Type := mkController {
  state : string;
  green_light_base_duration : Qc;
  green_light_max_duration : Qc;
  current_green_duration : Qc
}.

(** The attribute assignments of [__init__]. *)
Definition init : TrafficLightController :=
  {| state := "red";
     green_light_base_duration := Qc_of_Z 5;
     green_light_max_duration := Qc_of_Z 20;
     current_green_duration := Qc_of_Z 5 |}.

(** [get_state]: the dictionary of the three comparisons. *)
Definition get_state (self : TrafficLightController) : gmap string pyval :=
  <["red" := PyBool (String.eqb (state self) "red")]>
  (<["yellow" := PyBool (String.eqb (state self) "yellow")]>
  (<["green" := PyBool (String.eqb (state self) "green")]> ∅)).

(** [_set_state]: assigns only when the state differs. *)
Definition _set_state (self : TrafficLightController) (new_state : string)
  : TrafficLightController :=
  if negb (String.eqb (state self) new_state)
  then {| state := new_state;
          green_light_base_duration := green_light_base_duration self;
          green_light_max_duration := green_light_max_duration self;
          current_green_duration := current_green_duration self |}
  else self.

(** [update_logic_with_analysis]: [None] when the multiplication raises,
    for a count that is no number ([TypeError]) or that is too large for a
    float ([OverflowError]). *)
Definition update_logic_with_analysis (self : TrafficLightController)
    (analysis_data : gmap string pyval) : option TrafficLightController :=
  let vehicle_count := dict_get analysis_data "vehicle_count" (PyInt 0) in
  match as_number vehicle_count with
  | None => None
  | Some c =>
    match int_to_float c with
    | None => None
    | Some count =>
      let calculated_duration :=
        (green_light_base_duration self + count * half)%Qc in
      Some {| state := state self;
              green_light_base_duration := green_light_base_duration self;
              green_light_max_duration := green_light_max_duration self;
              current_green_duration :=
                py_max (green_light_base_duration self)
                       (py_min calculated_duration (green_light_max_duration self)) |}
    end
  end.

(** *** The cycle thread [_run_dynamic_cycle]

    One program point per statement of the loop body (the line numbers are
    those of [traffic_light.py]). The local variable [current_duration] is
    live only between its assignment and the sleep that reads it, so it is
    carried by that program point. *)
Inductive pc : Type :=
  | L78_set_red
  | L79_sleep_red
  | L82_set_green
  | L83_read_duration
  | L86_sleep_green (current_duration : Qc)
  | L89_set_yellow
  | L90_sleep_yellow.

(** What a step does that can be seen from outside the thread. *)
Inductive event : Type :=
  | EvSetState (new_state : string)
  | EvSleep (seconds : Qc)
  | EvReadDuration (seconds : Qc)
  | EvUpdate (analysis_data : gmap string pyval)
  | EvGetState (snapshot : gmap string pyval).

(** The controller object together with the program point of its thread. *)
Record system : Type := mkSystem {
  controller : TrafficLightController;
  cycle : pc
}.

(** [__init__] leaves the object in [init] and starts the thread at the top
    of the loop. *)
Definition init_system : system :=
  {| controller := init; cycle := L78_set_red |}.

(** One statement of the loop body; after line 90 the [while True] returns to
    line 78. Each [with lock:] block is one step. *)
Definition cycle_step (s : system) : event * system :=
  let self := controller s in
  match cycle s with
  | L78_set_red =>
      (EvSetState "red", {| controller := _set_state self "red"; cycle := L79_sleep_red |})
  | L79_sleep_red =>
      (EvSleep (Qc_of_Z 15), {| controller := self; cycle := L82_set_green |})
  | L82_set_green =>
      (EvSetState "green", {| controller := _set_state self "green"; cycle := L83_read_duration |})
  | L83_read_duration =>
      let current_duration := current_green_duration self in
      (EvReadDuration current_duration,
       {| controller := self; cycle := L86_sleep_green current_duration |})
  | L86_sleep_green current_duration =>
      (EvSleep current_duration, {| controller := self; cycle := L89_set_yellow |})
  | L89_set_yellow =>
      (EvSetState "yellow", {| controller := _set_state self "yellow"; cycle := L90_sleep_yellow |})
  | L90_sleep_yellow =>
      (EvSleep (Qc_of_Z 3), {| controller := self; cycle := L78_set_red |})
  end.

(** The interleavings of the cycle thread with the calls that other threads
    make on the controller: the pipeline's [update_logic_with_analysis] and
    the status route's [get_state]. *)
Inductive step : system -> event -> system -> Prop :=
  | step_cycle s :
      step s (fst (cycle_step s)) (snd (cycle_step s))
  | step_update s analysis_data self' :
      update_logic_with_analysis (controller s) analysis_data = Some self' ->
      step s (EvUpdate analysis_data) {| controller := self'; cycle := cycle s |}
  | step_get_state s :
      step s (EvGetState (get_state (controller s))) s.

Inductive reachable : system -> Prop :=
  | reachable_init : reachable init_system
  | reachable_step s e s' : reachable s -> step s e s' -> reachable s'.

(** The first [n] statements that [_run_dynamic_cycle] executes from a state,
    with no other thread in between: the events in order and the state
    reached. *)
Fixpoint _run_dynamic_cycle (n : nat) (s : system) : list event * system :=
  match n with
  | O => ([], s)
  | S n' =>
      let '(e, s') := cycle_step s in
      let '(es, s'') := _run_dynamic_cycle n' s' in
      (e :: es, s'')
  end.

(** The successor of a light state in the fixed cyclic order. *)
Definition next_state (st : string) : option string :=
  if String.eqb st "red" then Some "green"
  else if String.eqb st "green" then Some "yellow"
  else if String.eqb st "yellow" then Some "red"
  else None.

(** The number of flags of a snapshot that are [True]. *)
Definition true_flags (snapshot : gmap string pyval) : nat :=
  length (filter (λ kv, snd kv = PyBool true) (map_to_list snapshot)).

(** Which light states the thread can find at each of its program points. *)
Definition coherent (s : system) : Prop :=
  match cycle s with
  | L78_set_red => state (controller s) = "red" ∨ state (controller s) = "yellow"
  | L79_sleep_red | L82_set_green => state (controller s) = "red"
  | L83_read_duration | L86_sleep_green _ | L89_set_yellow =>
      state (controller s) = "green"
  | L90_sleep_yellow => state (controller s) = "yellow"
  end.

(** The controller with another suggested duration, all else equal. *)
Definition with_duration (d : Qc) (s : system) : system :=
  {| controller :=
       {| state := state (controller s);
          green_light_base_duration := green_light_base_duration (controller s);
          green_light_max_duration := green_light_max_duration (controller s);
          current_green_duration := d |};
     cycle := cycle s |}.

(** Any number of updates from the pipeline with no step of the cycle thread
    in between. *)
Inductive updates : system -> system -> Prop :=
  | updates_none s : updates s s
  | updates_more s analysis_data s' s'' :
      step s (EvUpdate analysis_data) s' -> updates s' s'' -> updates s s''.

(** What every reachable state keeps true of the durations: the base is 5
    and the maximum 20, the suggested duration lies between them, and so does
    the duration of a green dwell under way. *)
Definition duration_inv (s : system) : Prop :=
  green_light_base_duration (controller s) = Qc_of_Z 5
  ∧ green_light_max_duration (controller s) = Qc_of_Z 20
  ∧ (Qc_of_Z 5 ≤ current_green_duration (controller s))%Qc
  ∧ (current_green_duration (controller s) ≤ Qc_of_Z 20)%Qc
  ∧ match cycle s with
    | L86_sleep_green d => (Qc_of_Z 5 ≤ d)%Qc ∧ (d ≤ Qc_of_Z 20)%Qc
    | _ => True
    end.

(** The seconds a list of events spends in [time.sleep]. *)
Fixpoint slept (es : list event) : Qc :=
  match es with
  | [] => 0%Qc
  | EvSleep seconds :: rest => (seconds + slept rest)%Qc
  | _ :: rest => slept rest
  end.

End traffic_light.


(** ** Paths and file-name patterns

    The functions of [os.path] and [glob] that the program calls, on POSIX
    paths. *)
Module posixpath.

Definition sep : ascii := "/"%char.

(** ["/" in p] *)
Fixpoint has_sep (p : string) : bool :=
  match p with
  | EmptyString => false
  | String c rest => Ascii.eqb c sep || has_sep rest
  end.

(** [s.startswith(prefix)] and [s.endswith(suffix)] *)
Definition startswith (s prefix : string) : bool := String.prefix prefix s.

Fixpoint endswith (s suffix : string) : bool :=
  String.eqb s suffix
  || match s with
     | EmptyString => false
     | String _ rest => endswith rest suffix
     end.

(** [os.path.basename(p)]: what follows the last ["/"], all of [p] when it
    has none. *)
Fixpoint basename (p : string) : string :=
  match p with
  | EmptyString => EmptyString
  | String c rest =>
      if has_sep rest then basename rest
      else if Ascii.eqb c sep then rest
      else p
  end.

(** [os.path.join(a, b)]: an absolute [b] replaces [a]; a separator is put
    between the two unless [a] is empty or ends with one. *)
Definition join (a b : string) : string :=
  if startswith b "/" then b
  else if String.eqb a "" || endswith a "/" then a +:+ b
  else a +:+ "/" +:+ b.

(** Whether [glob] lists the directory entry [name] for the pattern
    ["*.jpg"]: the name ends with [".jpg"], and it is not a hidden entry,
    which a pattern that starts with a star leaves out. *)
Definition glob_star_jpg (name : string) : bool :=
  negb (startswith name ".") && endswith name ".jpg".

End posixpath.

Module analyzer.

(** *** Frames, detections and strings *)

(** One row of [results.xyxyn[0]]: the normalized box, the confidence and the
    class id (a float holding an integer). *)
Record detection : Type := mkDetection {
  bx1 : Qc;
  by1 : Qc;
  bx2 : Qc;
  by2 : Qc;
  confidence : Qc;
  class_id : Qc
}.

(** What the OpenCV drawing calls of [process_frame] add to an image: the
    rectangle of line 75 and the text of line 76 for a detection row. Their
    corners are [int(row[0]*x_shape)], [int(row[1]*y_shape)] and so on, which
    line 74 computes in single precision; a drawing holds the row and the
    shape that determine them. *)
Inductive drawing : Type :=
  | Rectangle (row : detection) (x_shape y_shape : Z)
  | PutText (text : string) (row : detection) (x_shape y_shape : Z).

(** A decoded image: its pixel dimensions ([frame.shape[0]] rows and
    [frame.shape[1]] columns), the picture the video file holds at that
    position, and what has been drawn over it, latest first. *)
Record frame : Type := mkFrame {
  rows : Z;
  cols : Z;
  picture : nat;
  drawn : list drawing
}.

Definition draw (d : drawing) (f : frame) : frame :=
  {| rows := rows f; cols := cols f; picture := picture f; drawn := d :: drawn f |}.

(** What a call of the model returns: the detections and the table of class
    names. The number of rows of a tensor is a machine integer: [len] of it
    is below 2^63. *)
Record results : Type := mkResults {
  xyxyn0 : list detection;
  names : gmap Z string;
  xyxyn0_rows : Z.of_nat (length xyxyn0) < 2 ^ 63
}.

(** Python's [int(x)] on a float: truncation towards zero. *)
Definition py_int (x : Qc) : Z := Z.quot (Qnum x) (Z.pos (Qden x)).

Definition ascii_upper (c : ascii) : ascii :=
  let n := nat_of_ascii c in
  if ((97 <=? n) && (n <=? 122))%nat then ascii_of_nat (n - 32) else c.

Definition ascii_lower (c : ascii) : ascii :=
  let n := nat_of_ascii c in
  if ((65 <=? n) && (n <=? 90))%nat then ascii_of_nat (n + 32) else c.

Fixpoint lower (s : string) : string :=
  match s with
  | EmptyString => EmptyString
  | String c rest => String (ascii_lower c) (lower rest)
  end.

(** [str.capitalize()] on ASCII text. *)
Definition capitalize (s : string) : string :=
  match s with
  | EmptyString => EmptyString
  | String c rest => String (ascii_upper c) (lower rest)
  end.

(** The class names of line 72. *)
Definition vehicle_classes : list string := ["car"; "motorcycle"; "bus"; "truck"].

(** The number of detections whose class name is a vehicle class; a class id
    without a name counts for nothing. *)
Definition is_vehicle (names : gmap Z string) (row : detection) : bool :=
  match names !! py_int (class_id row) with
  | Some label_name => bool_decide (label_name ∈ vehicle_classes)
  | None => false
  end.

Definition vehicle_detections (r : results) : list detection :=
  filter (λ row, is_vehicle (names r) row = true) (xyxyn0 r).

(** *** [class VideoAnalyzer] *)

Record VideoAnalyzer : Type := mkAnalyzer {
  video_path : string;
  latest_analysis_data : gmap string pyval;
  capture_dir : string;
  last_capture_time : Qc;
  capture_interval : Qc;
  model : option (frame -> results)
}.

(** [__init__]: [now] is the reading of [time.time()] on line 26 and
    [loaded] is [None] when loading the model raised. The controller the
    analyzer refers to is held by the pipeline state below. *)
Definition init (path : string) (now : Qc) (loaded : option (frame -> results))
  : VideoAnalyzer :=
  {| video_path := path;
     latest_analysis_data :=
       <["vehicle_count" := PyInt 0]> (<["status" := PyStr "Initializing..."]> ∅);
     capture_dir := "static/captured_frames";
     last_capture_time := now;
     capture_interval := Qc_of_Z 5;
     model := loaded |}.

Definition get_latest_analysis (self : VideoAnalyzer) : gmap string pyval :=
  latest_analysis_data self.

Definition set_latest_analysis_data (self : VideoAnalyzer)
    (analysis_data : gmap string pyval) : VideoAnalyzer :=
  {| video_path := video_path self;
     latest_analysis_data := analysis_data;
     capture_dir := capture_dir self;
     last_capture_time := last_capture_time self;
     capture_interval := capture_interval self;
     model := model self |}.

Definition set_last_capture_time (self : VideoAnalyzer) (t : Qc) : VideoAnalyzer :=
  {| video_path := video_path self;
     latest_analysis_data := latest_analysis_data self;
     capture_dir := capture_dir self;
     last_capture_time := t;
     capture_interval := capture_interval self;
     model := model self |}.

(** The [for i in range(n)] loop of [process_frame], lines 67 to 76, from the
    rows still to visit; [None] when [results.names[label_id]] raises. *)
Fixpoint detection_loop (names : gmap Z string) (x_shape y_shape : Z)
    (todo : list detection) (vehicle_count : Z) (frame : frame)
  : option (Z * analyzer.frame) :=
  match todo with
  | [] => Some (vehicle_count, frame)
  | row :: rest =>
      let label_id := py_int (class_id row) in
      match names !! label_id with
      | None => None
      | Some label_name =>
          if bool_decide (label_name ∈ vehicle_classes) then
            detection_loop names x_shape y_shape rest (vehicle_count + 1)
              (draw (PutText (capitalize label_name) row x_shape y_shape)
                 (draw (Rectangle row x_shape y_shape) frame))
          else detection_loop names x_shape y_shape rest vehicle_count frame
      end
  end.

Definition analysis (vehicle_count : Z) (status : string) : gmap string pyval :=
  <["vehicle_count" := PyInt vehicle_count]> (<["status" := PyStr status]> ∅).

(** [process_frame]: the analyzer after the call, the returned frame and the
    returned dictionary. *)
Definition process_frame (self : VideoAnalyzer) (frame : frame)
  : option (VideoAnalyzer * analyzer.frame * gmap string pyval) :=
  match model self with
  | None => Some (self, frame, analysis 0 "Model not loaded")
  | Some model =>
      let results := model frame in
      let x_shape := cols frame in
      let y_shape := rows frame in
      match detection_loop (names results) x_shape y_shape (xyxyn0 results) 0 frame with
      | None => None
      | Some (vehicle_count, frame') =>
          let analysis_data := analysis vehicle_count "Processing" in
          Some (set_latest_analysis_data self analysis_data, frame', analysis_data)
      end
  end.

(** *** [generate_frames]

    The state one generator works on: the analyzer object, the controller it
    notifies, the position of its [video_capture] in the file, and the calls
    of [_save_frame] made so far, latest first, each with the clock reading
    of its iteration. The route starts one generator; the check of the
    capture timer and its reset are then sequential. *)
Record pipeline : Type := mkPipeline {
  self : VideoAnalyzer;
  traffic_light_controller : traffic_light.TrafficLightController;
  position : nat;
  saved : list (Qc * frame)
}.

Definition start (a : VideoAnalyzer) (c : traffic_light.TrafficLightController)
  : pipeline :=
  {| self := a; traffic_light_controller := c; position := 0%nat; saved := [] |}.

(** [video_capture.set(cv2.CAP_PROP_POS_FRAMES, n)] *)
Definition set_position (w : pipeline) (n : nat) : pipeline :=
  {| self := self w;
     traffic_light_controller := traffic_light_controller w;
     position := n;
     saved := saved w |}.

(** [_save_frame]: the call is recorded with the frame it was given; whether
    the write to disk succeeds has no effect on the generator. *)
Definition _save_frame (log : list (Qc * frame)) (now : Qc) (frame : frame)
  : list (Qc * analyzer.frame) :=
  (now, frame) :: log.

(** How one pass through the body of [while True] ends: at a [continue], or
    at the [yield] with the chunk handed to the consumer. *)
Inductive outcome : Type :=
  | Continue
  | Yield (chunk : string).

(** Where the generator is after some iterations: inside the loop, ended by
    an exception, or returned. *)
Inductive status : Type :=
  | Running (w : pipeline)
  | Raised
  | Returned.

Definition crlf : string :=
  String (ascii_of_nat 13) (String (ascii_of_nat 10) EmptyString).

(** The multipart chunk of lines 114 and 115. *)
Definition chunk_of_bytes (frame_bytes : string) : string :=
  ("--frame" +:+ crlf +:+ "Content-Type: image/jpeg" +:+ crlf +:+ crlf
   +:+ frame_bytes +:+ crlf).

Definition emitted (o : outcome) : list string :=
  match o with
  | Continue => []
  | Yield chunk => [chunk]
  end.

Section generate_frames.

(** The frames of the opened file in order, and the JPEG encoder
    ([None] when [cv2.imencode] reports failure). *)
Variable video : list frame.
Variable imencode : frame -> option string.

(** One pass through the loop body, lines 94 to 117; [current_time] is what
    [time.time()] returns on line 104 when the pass gets there. *)
Definition iteration (current_time : Qc) (w : pipeline) : option (outcome * pipeline) :=
  match video !! position w with
  | None => Some (Continue, set_position w 0)
  | Some frame =>
      match process_frame (self w) frame with
      | None => None
      | Some (self1, processed_frame, analysis_data) =>
          match traffic_light.update_logic_with_analysis
                  (traffic_light_controller w) analysis_data with
          | None => None
          | Some controller1 =>
              let capture :=
                bool_decide (capture_interval self1
                             < current_time - last_capture_time self1)%Qc in
              let w1 :=
                {| self := if capture
                           then set_last_capture_time self1 current_time
                           else self1;
                   traffic_light_controller := controller1;
                   position := S (position w);
                   saved := if capture
                            then _save_frame (saved w) current_time processed_frame
                            else saved w |} in
              match imencode processed_frame with
              | None => Some (Continue, w1)
              | Some buffer => Some (Yield (chunk_of_bytes buffer), w1)
              end
          end
      end
  end.

(** The loop, one pass per clock reading supplied: the chunks yielded, in
    order, and where the generator is afterwards. *)
Fixpoint loop (clock : list Qc) (w : pipeline) : list string * status :=
  match clock with
  | [] => ([], Running w)
  | current_time :: later =>
      match iteration current_time w with
      | None => ([], Raised)
      | Some (o, w1) =>
          let '(chunks, st) := loop later w1 in
          (emitted o ++ chunks, st)
      end
  end.

End generate_frames.

(** [generate_frames]: [opened] is [None] when the file could not be opened,
    and the frames of the file otherwise. *)
Definition generate_frames (opened : option (list frame))
    (imencode : frame -> option string) (clock : list Qc)
    (a : VideoAnalyzer) (c : traffic_light.TrafficLightController)
  : list string * status :=
  match opened with
  | None => ([], Returned)
  | Some video => loop video imencode clock (start a c)
  end.

(** The chunk a frame of the file gives rise to, if any. *)
Definition chunk_of (a : VideoAnalyzer) (imencode : frame -> option string)
    (f : frame) : option string :=
  match process_frame a f with
  | Some (_, processed_frame, _) => chunk_of_bytes <$> imencode processed_frame
  | None => None
  end.

(** A chunk that carries a frame of the file as it was read. *)
Definition unmodified_chunk (video : list frame)
    (imencode : frame -> option string) (chunk : string) : Prop :=
  ∃ (f : frame) (buffer : string),
    f ∈ video ∧ imencode f = Some buffer ∧ chunk = chunk_of_bytes buffer.

(** The analyzer states that calls of [process_frame] lead to. *)
Inductive reachable (a0 : VideoAnalyzer) : VideoAnalyzer -> Prop :=
  | reachable_init : reachable a0 a0
  | reachable_process a f a' f' d :
      reachable a0 a -> process_frame a f = Some (a', f', d) -> reachable a0 a'
  | reachable_capture a t :
      reachable a0 a -> reachable a0 (set_last_capture_time a t).

(** The clock readings of the calls of the capture sink are spaced by more
    than [interval], the latest call being at [last]. *)
Fixpoint spaced (interval : Qc) (log : list Qc) : Prop :=
  match log with
  | [] => True
  | t :: earlier =>
      match earlier with
      | [] => True
      | t' :: _ => (interval < t - t')%Qc
      end /\ spaced interval earlier
  end.

(** The clock readings of the calls of the capture sink, latest first,
    followed by the reading [t0] the constructor took. *)
Definition capture_times (t0 : Qc) (w : pipeline) : list Qc :=
  (fst <$> saved w) ++ [t0].

(** What a run keeps true of the capture timer: the interval is 5 seconds,
    the timer holds the latest entry of [capture_times], and the entries are
    spaced by more than the interval. *)
Definition timer_inv (t0 : Qc) (w : pipeline) : Prop :=
  capture_interval (self w) = Qc_of_Z 5
  ∧ head (capture_times t0 w) = Some (last_capture_time (self w))
  ∧ spaced (Qc_of_Z 5) (capture_times t0 w).

(** What [datetime.datetime.now()] returns. *)
Record datetime : Type := mkDatetime {
  year : N;
  month : N;
  day : N;
  hour : N;
  minute : N;
  second : N;
  microsecond : N
}.

(** The values a [datetime] of a year with four digits can hold. *)
Definition valid_datetime (dt : datetime) : Prop :=
  (1000 ≤ year dt ≤ 9999 ∧ 1 ≤ month dt ≤ 12 ∧ 1 ≤ day dt ≤ 31
   ∧ hour dt < 24 ∧ minute dt < 60 ∧ second dt < 60
   ∧ microsecond dt < 1000000)%N.

(** A number in decimal, padded with zeros to [width] digits (its last
    [width] digits when it has more). *)
Definition digit (d : N) : ascii := ascii_of_N (48 + d).

Fixpoint digits (width : nat) (n : N) : string :=
  match width with
  | O => EmptyString
  | S w => digits w (n / 10)%N +:+ String (digit (n mod 10)%N) EmptyString
  end.

(** [strftime("%Y%m%d_%H%M%S_%f")] on line 44. *)
Definition strftime (dt : datetime) : string :=
  digits 4 (year dt) +:+ digits 2 (month dt) +:+ digits 2 (day dt) +:+ "_"
  +:+ digits 2 (hour dt) +:+ digits 2 (minute dt) +:+ digits 2 (second dt) +:+ "_"
  +:+ digits 6 (microsecond dt).

(** The file [_save_frame] writes for the timestamp that [strftime] gave it:
    lines 45 and 46. *)
Definition capture_filename (timestamp : string) : string :=
  "capture_" +:+ timestamp +:+ ".jpg".

Definition capture_filepath (self : VideoAnalyzer) (timestamp : string) : string :=
  posixpath.join (capture_dir self) (capture_filename timestamp).

(** The names of the vehicle detections of a result, in the order of the
    rows; a row that is no vehicle, or whose class id has no name, gives
    none. *)
Definition vehicle_label (names : gmap Z string) (row : detection) : option string :=
  match names !! py_int (class_id row) with
  | Some label_name =>
      if bool_decide (label_name ∈ vehicle_classes) then Some label_name else None
  | None => None
  end.

Definition vehicle_labels (r : results) : list string :=
  omap (vehicle_label (names r)) (xyxyn0 r).

(** The texts written over a frame, latest first, and the number of
    rectangles drawn over it, whatever their places. *)
Definition drawn_text (d : drawing) : option string :=
  match d with
  | PutText text _ _ _ => Some text
  | Rectangle _ _ _ => None
  end.

Definition drawn_texts (f : frame) : list string := omap drawn_text (drawn f).

Definition drawn_rectangles (f : frame) : nat :=
  length (filter (λ d, drawn_text d = None) (drawn f)).

(** The payload of a multipart chunk: what lies between the 37 bytes of
    boundary and header and the closing line break. *)
Definition chunk_payload (chunk : string) : string :=
  String.substring 37 (String.length chunk - 39) chunk.

(** The frame that [process_frame] returns. *)
Definition processed (a : VideoAnalyzer) (f : frame) : option frame :=
  (snd ∘ fst) <$> process_frame a f.

(** A chunk that carries the encoding of the processed form of a frame of
    the file. *)
Definition processed_chunk (a : VideoAnalyzer) (video : list frame)
    (imencode : frame -> option string) (chunk : string) : Prop :=
  ∃ f : frame, f ∈ video ∧ chunk_of a imencode f = Some chunk.

(** The suggested green duration is the one that belongs to the retained
    vehicle count. *)
Definition in_sync (w : pipeline) : Prop :=
  ∃ n : Z,
    latest_analysis_data (self w) !! "vehicle_count" = Some (PyInt n)
    ∧ traffic_light.green_light_base_duration (traffic_light_controller w) = Qc_of_Z 5
    ∧ traffic_light.green_light_max_duration (traffic_light_controller w) = Qc_of_Z 20
    ∧ traffic_light.current_green_duration (traffic_light_controller w)
      = clamp (Qc_of_Z 5 + Qc_of_Z n * half)%Qc (Qc_of_Z 5) (Qc_of_Z 20).

(** *** Sample data for the examples

    A 640 by 480 frame, and a model that reports a car, a person and a truck
    on every frame, with three of the class names of the COCO table. *)
Definition sample_frame (i : nat) : frame :=
  {| rows := 480; cols := 640; picture := i; drawn := [] |}.

Definition sample_names : gmap Z string :=
  <[0 := "person"]> (<[2 := "car"]> (<[7 := "truck"]> ∅)).

Definition sample_model (f : frame) : results :=
  {| xyxyn0 :=
       [ mkDetection (Q2Qc (1 # 10)) (Q2Qc (1 # 5)) (Q2Qc (1 # 2)) (Q2Qc (3 # 5))
           (Q2Qc (9 # 10)) (Qc_of_Z 2);
         mkDetection (Q2Qc (3 # 5)) (Q2Qc (1 # 4)) (Q2Qc (7 # 10)) (Q2Qc (3 # 4))
           (Q2Qc (4 # 5)) (Qc_of_Z 0);
         mkDetection (Q2Qc (1 # 2)) (Q2Qc (1 # 2)) (Qc_of_Z 1) (Qc_of_Z 1)
           (Q2Qc (7 # 10)) (Qc_of_Z 7) ];
     names := sample_names;
     xyxyn0_rows := eq_refl |}.

(** A model that reports a car and then a detection of class 5, for which
    its table has no name. *)
Definition sample_unnamed_model (f : frame) : results :=
  {| xyxyn0 :=
       [ mkDetection (Q2Qc (1 # 10)) (Q2Qc (1 # 5)) (Q2Qc (1 # 2)) (Q2Qc (3 # 5))
           (Q2Qc (9 # 10)) (Qc_of_Z 2);
         mkDetection (Q2Qc (3 # 5)) (Q2Qc (1 # 4)) (Q2Qc (7 # 10)) (Q2Qc (3 # 4))
           (Q2Qc (4 # 5)) (Qc_of_Z 5) ];
     names := sample_names;
     xyxyn0_rows := eq_refl |}.

(** A JPEG encoder for the examples: it succeeds on every frame. *)
Definition sample_imencode (f : frame) : option string := Some "jpeg".

(** One pass over a one-frame file, six seconds after the construction of an
    analyzer without a model, and the state it ends in. *)
Definition sample_run : list string * status :=
  generate_frames (Some [sample_frame 0]) sample_imencode [Qc_of_Z 6]
    (init "static/videos/traffic.mp4" 0%Qc None) traffic_light.init.

Definition sample_final : pipeline :=
  match snd sample_run with
  | Running w => w
  | _ => start (init "static/videos/traffic.mp4" 0%Qc None) traffic_light.init
  end.

(** Two passes over a one-frame file with the sample model, and the state
    they end in. *)
Definition sample_model_run : list string * status :=
  generate_frames (Some [sample_frame 0]) sample_imencode [Qc_of_Z 6; Qc_of_Z 7]
    (init "static/videos/traffic.mp4" 0%Qc (Some sample_model)) traffic_light.init.

Definition sample_model_final : pipeline :=
  match snd sample_model_run with
  | Running w => w
  | _ => start (init "static/videos/traffic.mp4" 0%Qc (Some sample_model))
           traffic_light.init
  end.

End analyzer.

(** ** [app.py] *)
Module app.

Definition CAPTURE_DIR : string := "static/captured_frames".

(** The capture directory as the route finds it: the name and the
    modification time of each entry, in the order the system lists them (no
    entry when the directory does not exist). *)
Definition listing : Type := list (string * Qc).

(** [glob.glob(os.path.join(CAPTURE_DIR, '*.jpg'))]: the path of each entry
    the pattern lists, kept with the modification time that
    [os.path.getmtime] reads for it. *)
Definition glob_image_files (dir : listing) : list (string * Qc) :=
  (λ entry, (posixpath.join CAPTURE_DIR (fst entry), snd entry))
    <$> filter (λ entry, posixpath.glob_star_jpg (fst entry) = true) dir.

(** [image_files.sort(key=os.path.getmtime, reverse=True)]: the sort is
    stable, so among files with equal times the earlier one stays first. *)
Fixpoint insert_by_mtime (file : string * Qc) (sorted : list (string * Qc))
  : list (string * Qc) :=
  match sorted with
  | [] => [file]
  | other :: rest =>
      if decide (snd file < snd other)%Qc
      then other :: insert_by_mtime file rest
      else file :: sorted
  end.

Definition sort_by_mtime (files : list (string * Qc)) : list (string * Qc) :=
  foldr insert_by_mtime [] files.

(** [latest_files = image_files[:12]] after the sort. *)
Definition latest_files (dir : listing) : list (string * Qc) :=
  take 12 (sort_by_mtime (glob_image_files dir)).

(** [get_captured_frames]: the list handed to [jsonify]. *)
Definition get_captured_frames (dir : listing) : list string :=
  (λ f, posixpath.join "captured_frames" (posixpath.basename (fst f)))
    <$> latest_files dir.

(** A list of files ordered from the newest to the oldest. *)
Definition newest_first (files : list (string * Qc)) : Prop :=
  ∀ (i j : nat) (a b : string * Qc),
    (i < j)%nat -> files !! i = Some a -> files !! j = Some b ->
    (snd b ≤ snd a)%Qc.

(** [a] is no older than [b]. *)
Definition no_older (a b : string * Qc) : Prop := (snd b ≤ snd a)%Qc.

(** A capture directory for the examples: a note, a hidden file, and
    fourteen captures written one second apart, listed oldest first. *)
Definition sample_dir : listing :=
  ("notes.txt", Qc_of_Z 99) :: (".hidden.jpg", Qc_of_Z 98) ::
  ((λ i : nat,
      (analyzer.capture_filename
         (analyzer.strftime (analyzer.mkDatetime 2024 1 1 12 0 (N.of_nat i) 0)),
       Qc_of_Z (Z.of_nat i))) <$> seq 1 14).

End app.

(** ** Numbers *)

Lemma py_max_min_clamp (x lo hi : Qc) :
  (lo ≤ hi)%Qc -> py_max lo (py_min x hi) = clamp x lo hi.
Proof.
  intros Hle. unfold py_max, py_min, clamp.
  destruct (decide (hi < x)%Qc) as [Hhi|Hhi].
  - destruct (decide (lo < hi)%Qc) as [Hlt|Hlt];
      destruct (decide (x < lo)%Qc) as [Hx|Hx]; try reflexivity.
    + exfalso. apply (Qclt_not_le _ _ Hhi).
      apply Qclt_le_weak, Qclt_trans with lo; assumption.
    + apply Qcle_antisym; [assumption | apply Qcnot_lt_le; assumption].
  - destruct (decide (lo < x)%Qc) as [Hlt|Hlt];
      destruct (decide (x < lo)%Qc) as [Hx|Hx]; try reflexivity.
    + exfalso. exact (Qclt_not_le _ _ Hx (Qclt_le_weak _ _ Hlt)).
    + apply Qcle_antisym; apply Qcnot_lt_le; assumption.
Qed.

Lemma clamp_bounds (x lo hi : Qc) :
  (lo ≤ hi)%Qc -> (lo ≤ clamp x lo hi ∧ clamp x lo hi ≤ hi)%Qc.
Proof.
  intros Hle. unfold clamp.
  destruct (decide (x < lo)%Qc) as [Hx|Hx].
  - split; [apply Qcle_refl | assumption].
  - destruct (decide (hi < x)%Qc) as [Hh|Hh].
    + split; [assumption | apply Qcle_refl].
    + split; apply Qcnot_lt_le; assumption.
Qed.

Lemma five_le_twenty : (Qc_of_Z 5 ≤ Qc_of_Z 20)%Qc.
Proof. vm_compute. discriminate. Qed.

Lemma int_to_float_in_range (n : Z) :
  Z.abs n < float_overflow -> int_to_float n = Some (Qc_of_Z n).
Proof. intros Hn. unfold int_to_float. by rewrite decide_True. Qed.

Lemma int_to_float_overflow (n : Z) :
  float_overflow ≤ Z.abs n -> int_to_float n = None.
Proof. intros Hn. unfold int_to_float. rewrite decide_False; [done | lia]. Qed.

Lemma int_to_float_Some (n : Z) (x : Qc) :
  int_to_float n = Some x -> x = Qc_of_Z n ∧ Z.abs n < float_overflow.
Proof.
  unfold int_to_float. destruct (decide _) as [Hn|]; [|discriminate].
  by intros [= <-].
Qed.

(** A machine integer converts to a float. *)
Lemma machine_integer_in_range (n : Z) :
  Z.abs n < 2 ^ 63 -> Z.abs n < float_overflow.
Proof.
  intros Hn. apply Z.lt_trans with (2 ^ 63); [exact Hn|]. reflexivity.
Qed.

(** ** The green duration *)

Section green_duration.
Import traffic_light.

Lemma dict_get_insert (d : gmap string pyval) (key : string) (v default : pyval) :
  dict_get (<[key := v]> d) key default = v.
Proof. unfold dict_get. by rewrite lookup_insert_eq. Qed.

Lemma dict_get_missing (d : gmap string pyval) (key : string) (default : pyval) :
  d !! key = None -> dict_get d key default = default.
Proof. unfold dict_get. by intros ->. Qed.

(** What a call does for an integer count, whatever the controller holds. *)
Lemma update_logic_with_count (self : TrafficLightController)
    (data : gmap string pyval) (c : Z) :
  dict_get data "vehicle_count" (PyInt 0) = PyInt c ->
  Z.abs c < float_overflow ->
  update_logic_with_analysis self data =
    Some {| state := state self;
            green_light_base_duration := green_light_base_duration self;
            green_light_max_duration := green_light_max_duration self;
            current_green_duration :=
              py_max (green_light_base_duration self)
                (py_min (green_light_base_duration self + Qc_of_Z c * half)%Qc
                        (green_light_max_duration self)) |}.
Proof.
  intros Hget Hc. unfold update_logic_with_analysis. rewrite Hget.
  cbn [as_number]. by rewrite (int_to_float_in_range c Hc).
Qed.

(** C9. For a controller with base duration 5 and maximum 20, an update whose
    dictionary has no ["vehicle_count"] key does not raise: the count is read
    as 0 and the stored duration becomes the base duration, 5. *)
Theorem update_logic_without_count_stores_base
    (st : string) (d : Qc) (data : gmap string pyval) :
  data !! "vehicle_count" = None ->
  dict_get data "vehicle_count" (PyInt 0) = PyInt 0
  ∧ update_logic_with_analysis (mkController st (Qc_of_Z 5) (Qc_of_Z 20) d) data
    = Some (mkController st (Qc_of_Z 5) (Qc_of_Z 20) (Qc_of_Z 5)).
Proof.
  intros Hmissing.
  pose proof (dict_get_missing data "vehicle_count" (PyInt 0) Hmissing) as Hget.
  split; [exact Hget|].
  rewrite (update_logic_with_count _ _ 0 Hget) by reflexivity.
  cbn [green_light_base_duration green_light_max_duration state].
  reflexivity.
Qed.

Lemma update_logic_without_count_stores_base_witness :
  (<["status" := PyStr "Processing"]> ∅ : gmap string pyval) !! "vehicle_count" = None
  ∧ update_logic_with_analysis init (<["status" := PyStr "Processing"]> ∅)
    = Some (mkController "red" (Qc_of_Z 5) (Qc_of_Z 20) (Qc_of_Z 5)).
Proof.
  split; [reflexivity|].
  apply (update_logic_without_count_stores_base "red" (Qc_of_Z 5)
           (<["status" := PyStr "Processing"]> ∅)).
  reflexivity.
Defined.

End green_duration.

(** ** The light cycle *)

Section light_cycle.
Import traffic_light.

Lemma set_state_state (self : TrafficLightController) (new_state : string) :
  state (_set_state self new_state) = new_state.
Proof.
  unfold _set_state.
  destruct (String.eqb_spec (state self) new_state) as [Heq|Hne]; cbn; congruence.
Qed.

Lemma set_state_duration (self : TrafficLightController) (new_state : string) :
  current_green_duration (_set_state self new_state) = current_green_duration self
  ∧ green_light_base_duration (_set_state self new_state) = green_light_base_duration self
  ∧ green_light_max_duration (_set_state self new_state) = green_light_max_duration self.
Proof. unfold _set_state. destruct (negb _); cbn; auto. Qed.

Lemma update_logic_frame (self self' : TrafficLightController)
    (data : gmap string pyval) :
  update_logic_with_analysis self data = Some self' ->
  state self' = state self
  ∧ green_light_base_duration self' = green_light_base_duration self
  ∧ green_light_max_duration self' = green_light_max_duration self.
Proof.
  unfold update_logic_with_analysis.
  destruct (as_number _) as [c|]; [|discriminate].
  destruct (int_to_float c); [|discriminate].
  intros [= <-]. cbn. auto.
Qed.

Lemma step_update_inv (s s' : system) (data : gmap string pyval) :
  step s (EvUpdate data) s' ->
  ∃ self', update_logic_with_analysis (controller s) data = Some self'
           ∧ s' = {| controller := self'; cycle := cycle s |}.
Proof.
  inversion 1 as [s0 Hev Hs | s0 data0 self' Hup | s0]; subst.
  - exfalso. destruct s as [self p]. destruct p; discriminate.
  - eauto.
Qed.

Lemma cycle_step_coherent (s : system) :
  coherent s -> coherent (snd (cycle_step s)).
Proof.
  destruct s as [self p]. unfold coherent, cycle_step.
  destruct p; cbn; rewrite ?set_state_state; auto.
Qed.

Lemma step_coherent (s s' : system) (e : event) :
  coherent s -> step s e s' -> coherent s'.
Proof.
  intros Hc Hstep. destruct Hstep as [s | s data self' Hup | s].
  - by apply cycle_step_coherent.
  - apply update_logic_frame in Hup as (Hst & _).
    unfold coherent in *. cbn. rewrite Hst. exact Hc.
  - exact Hc.
Qed.

Lemma reachable_coherent (s : system) : reachable s -> coherent s.
Proof.
  induction 1 as [|s e s' _ IH Hstep].
  - cbn. by left.
  - eapply step_coherent; eauto.
Qed.

Lemma coherent_light (s : system) :
  coherent s ->
  state (controller s) = "red" ∨ state (controller s) = "green"
  ∨ state (controller s) = "yellow".
Proof. unfold coherent. destruct (cycle s); intuition. Qed.

Lemma cycle_step_order (s : system) :
  coherent s ->
  state (controller (snd (cycle_step s))) = state (controller s)
  ∨ next_state (state (controller s)) = Some (state (controller (snd (cycle_step s)))).
Proof.
  destruct s as [self p]. unfold coherent, cycle_step.
  destruct p; cbn; rewrite ?set_state_state; auto.
  - intros [->| ->]; [by left | by right].
  - intros ->. by right.
  - intros ->. by right.
Qed.

Lemma cycle_run_succ (n : nat) (s : system) :
  _run_dynamic_cycle (S n) s
  = (fst (cycle_step s) :: fst (_run_dynamic_cycle n (snd (cycle_step s))),
     snd (_run_dynamic_cycle n (snd (cycle_step s)))).
Proof.
  cbn [_run_dynamic_cycle]. destruct (cycle_step s) as [e s1]. cbn [fst snd].
  by destruct (_run_dynamic_cycle n s1).
Qed.

Lemma reachable_cycle_run (n : nat) (s : system) :
  reachable s -> reachable (snd (_run_dynamic_cycle n s)).
Proof.
  revert s. induction n as [|n IH]; intros s Hreach; [exact Hreach|].
  rewrite cycle_run_succ. cbn [snd]. apply IH.
  eapply reachable_step; [exact Hreach | apply step_cycle].
Qed.

Lemma cycle_progress (s : system) :
  coherent s ->
  ∃ k : nat, (k ≤ 3)%nat
    ∧ next_state (state (controller s))
      = Some (state (controller (snd (_run_dynamic_cycle k s)))).
Proof.
  destruct s as [self p]. unfold coherent. destruct p; cbn [cycle controller].
  - intros [Hst|Hst].
    + exists 3%nat. split; [lia|]. cbn. rewrite set_state_state, Hst. reflexivity.
    + exists 1%nat. split; [lia|]. cbn. rewrite set_state_state, Hst. reflexivity.
  - intros Hst. exists 2%nat. split; [lia|]. cbn. rewrite set_state_state, Hst. reflexivity.
  - intros Hst. exists 1%nat. split; [lia|]. cbn. rewrite set_state_state, Hst. reflexivity.
  - intros Hst. exists 3%nat. split; [lia|]. cbn. rewrite set_state_state, Hst. reflexivity.
  - intros Hst. exists 2%nat. split; [lia|]. cbn. rewrite set_state_state, Hst. reflexivity.
  - intros Hst. exists 1%nat. split; [lia|]. cbn. rewrite set_state_state, Hst. reflexivity.
  - intros Hst. exists 2%nat. split; [lia|]. cbn. rewrite set_state_state, Hst. reflexivity.
Qed.

(** C4. The light is red when the controller has been constructed. From
    every reachable state, every step (of the cycle thread, of an update or
    of a status query) either leaves the light as it is or moves it to its
    successor in the order red, green, yellow, red; and the cycle thread, left
    to run, moves the light to that successor within three of its
    statements. *)
Theorem light_follows_cyclic_order :
  state (controller init_system) = "red"
  ∧ (∀ (s s' : system) (e : event),
       reachable s -> step s e s' ->
       state (controller s') = state (controller s)
       ∨ next_state (state (controller s)) = Some (state (controller s')))
  ∧ (∀ s : system,
       reachable s ->
       ∃ k : nat, (k ≤ 3)%nat
         ∧ next_state (state (controller s))
           = Some (state (controller (snd (_run_dynamic_cycle k s))))).
Proof.
  split; [reflexivity|]. split.
  - intros s s' e Hreach Hstep.
    apply reachable_coherent in Hreach.
    destruct Hstep as [s | s data self' Hup | s].
    + by apply cycle_step_order.
    + left. by apply update_logic_frame in Hup as (Hst & _).
    + by left.
  - intros s Hreach. by apply cycle_progress, reachable_coherent.
Qed.

Lemma light_follows_cyclic_order_witness :
  reachable (snd (_run_dynamic_cycle 2 init_system))
  ∧ next_state "red" = Some (state (controller (snd (_run_dynamic_cycle 3 init_system)))).
Proof.
  assert (reachable (snd (_run_dynamic_cycle 2 init_system))) as Hreach.
  { apply reachable_cycle_run, reachable_init. }
  split; [exact Hreach|].
  destruct (proj1 (proj2 light_follows_cyclic_order) _ _ _ Hreach (step_cycle _))
    as [Hsame|Hnext].
  - discriminate Hsame.
  - exact Hnext.
Defined.

(** C5. In every reachable state the dictionary that [get_state] returns has
    the three keys red, yellow and green, and exactly one of them is [True]:
    the snapshot is one of the three one-hot dictionaries. *)
Theorem get_state_exactly_one_true (s : system) :
  reachable s ->
  size (get_state (controller s)) = 3%nat
  ∧ true_flags (get_state (controller s)) = 1%nat
  ∧ (get_state (controller s)
       = <["red" := PyBool true]> (<["yellow" := PyBool false]>
           (<["green" := PyBool false]> ∅))
     ∨ get_state (controller s)
       = <["red" := PyBool false]> (<["yellow" := PyBool true]>
           (<["green" := PyBool false]> ∅))
     ∨ get_state (controller s)
       = <["red" := PyBool false]> (<["yellow" := PyBool false]>
           (<["green" := PyBool true]> ∅))).
Proof.
  intros Hreach.
  apply reachable_coherent, coherent_light in Hreach.
  unfold get_state.
  destruct Hreach as [-> | [-> | ->]].
  - split; [reflexivity|]. split; [reflexivity|]. left. reflexivity.
  - split; [reflexivity|]. split; [reflexivity|]. right. right. reflexivity.
  - split; [reflexivity|]. split; [reflexivity|]. right. left. reflexivity.
Qed.

Lemma get_state_exactly_one_true_witness :
  true_flags (get_state (controller (snd (_run_dynamic_cycle 3 init_system)))) = 1%nat.
Proof.
  apply (get_state_exactly_one_true (snd (_run_dynamic_cycle 3 init_system))).
  apply reachable_cycle_run, reachable_init.
Defined.

(** A light state outside the three would give a snapshot with no flag set;
    the invariant above is what rules it out. *)
Example get_state_unreachable_all_false :
  true_flags (get_state (mkController "blue" (Qc_of_Z 5) (Qc_of_Z 20) (Qc_of_Z 5)))
  = 0%nat.
Proof. reflexivity. Qed.

Lemma cycle_step_reads_only_at_L83 (s : system) (d : Qc) :
  cycle s ≠ L83_read_duration ->
  cycle_step (with_duration d s)
  = (fst (cycle_step s), with_duration d (snd (cycle_step s))).
Proof.
  destruct s as [self p]. unfold cycle_step, with_duration, _set_state.
  destruct p; cbn; try reflexivity; try congruence;
    intros _; destruct (negb _); reflexivity.
Qed.

Lemma updates_keep_thread (s s' : system) :
  updates s s' ->
  cycle s' = cycle s ∧ state (controller s') = state (controller s).
Proof.
  induction 1 as [s | s data s1 s2 Hstep _ [IHc IHs]]; [done|].
  apply step_update_inv in Hstep as (self' & Hup & ->).
  apply update_logic_frame in Hup as (Hst & _).
  cbn in *. split; congruence.
Qed.

(** C8. An update changes neither the light state, nor the base and maximum
    durations, nor where the cycle thread is or the duration it holds. The
    thread reads the suggested duration in one statement only, the one that
    follows the switch to green: every other statement does the same whatever
    the suggested duration is. Once the green dwell is under way with
    duration [d], updates leave it at [d], and a whole round of the thread
    sleeps, in green, for the value read at the entry. *)
Theorem update_leaves_light_and_running_dwell :
  (∀ (s s' : system) (data : gmap string pyval),
     step s (EvUpdate data) s' ->
     state (controller s') = state (controller s)
     ∧ green_light_base_duration (controller s')
       = green_light_base_duration (controller s)
     ∧ green_light_max_duration (controller s')
       = green_light_max_duration (controller s)
     ∧ cycle s' = cycle s)
  ∧ (∀ (s : system) (d : Qc),
       fst (cycle_step s) = EvReadDuration d ->
       cycle s = L83_read_duration ∧ d = current_green_duration (controller s))
  ∧ (∀ s : system,
       cycle (snd (cycle_step s)) = L83_read_duration <-> cycle s = L82_set_green)
  ∧ (∀ (s : system) (d : Qc),
       cycle s ≠ L83_read_duration ->
       cycle_step (with_duration d s)
       = (fst (cycle_step s), with_duration d (snd (cycle_step s))))
  ∧ (∀ (s s' : system) (d : Qc),
       cycle s = L86_sleep_green d -> updates s s' ->
       cycle s' = L86_sleep_green d
       ∧ state (controller s') = state (controller s)
       ∧ fst (cycle_step s') = EvSleep d)
  ∧ (∀ self : TrafficLightController,
       fst (_run_dynamic_cycle 7 {| controller := self; cycle := L78_set_red |})
       = [EvSetState "red"; EvSleep (Qc_of_Z 15); EvSetState "green";
          EvReadDuration (current_green_duration self);
          EvSleep (current_green_duration self);
          EvSetState "yellow"; EvSleep (Qc_of_Z 3)]).
Proof.
  repeat apply conj.
  - intros s s' data Hstep.
    apply step_update_inv in Hstep as (self' & Hup & ->).
    apply update_logic_frame in Hup as (Hst & Hb & Hm). cbn. auto.
  - intros [self p] d. unfold cycle_step. destruct p; cbn; try discriminate.
    intros [= <-]. auto.
  - intros [self p]. unfold cycle_step. destruct p; cbn; split; congruence.
  - apply cycle_step_reads_only_at_L83.
  - intros s s' d Hpc Hup.
    apply updates_keep_thread in Hup as (Hc & Hst).
    rewrite Hpc in Hc. repeat split; [exact Hc | exact Hst |].
    destruct s' as [self' p']. cbn in Hc. subst p'. reflexivity.
  - intros self. cbn.
    rewrite !(proj1 (set_state_duration _ _)). reflexivity.
Qed.

Lemma update_leaves_light_and_running_dwell_witness :
  updates (mkSystem (mkController "green" (Qc_of_Z 5) (Qc_of_Z 20) (Qc_of_Z 5))
                    (L86_sleep_green (Qc_of_Z 5)))
          (mkSystem (mkController "green" (Qc_of_Z 5) (Qc_of_Z 20) (Qc_of_Z 20))
                    (L86_sleep_green (Qc_of_Z 5)))
  ∧ fst (cycle_step
           (mkSystem (mkController "green" (Qc_of_Z 5) (Qc_of_Z 20) (Qc_of_Z 20))
                     (L86_sleep_green (Qc_of_Z 5))))
    = EvSleep (Qc_of_Z 5).
Proof.
  assert (updates
            (mkSystem (mkController "green" (Qc_of_Z 5) (Qc_of_Z 20) (Qc_of_Z 5))
                      (L86_sleep_green (Qc_of_Z 5)))
            (mkSystem (mkController "green" (Qc_of_Z 5) (Qc_of_Z 20) (Qc_of_Z 20))
                      (L86_sleep_green (Qc_of_Z 5)))) as Hup.
  { eapply updates_more; [|apply updates_none].
    apply (step_update
             (mkSystem (mkController "green" (Qc_of_Z 5) (Qc_of_Z 20) (Qc_of_Z 5))
                       (L86_sleep_green (Qc_of_Z 5)))
             (<["vehicle_count" := PyInt 40]> ∅)).
    reflexivity. }
  split; [exact Hup|].
  exact (proj2 (proj2
    (proj1 (proj2 (proj2 (proj2 (proj2 update_leaves_light_and_running_dwell))))
       (mkSystem (mkController "green" (Qc_of_Z 5) (Qc_of_Z 20) (Qc_of_Z 5))
                 (L86_sleep_green (Qc_of_Z 5)))
       _ (Qc_of_Z 5) eq_refl Hup))).
Defined.

Lemma update_logic_bounds (self self' : TrafficLightController)
    (data : gmap string pyval) :
  green_light_base_duration self = Qc_of_Z 5 ->
  green_light_max_duration self = Qc_of_Z 20 ->
  update_logic_with_analysis self data = Some self' ->
  (Qc_of_Z 5 ≤ current_green_duration self')%Qc
  ∧ (current_green_duration self' ≤ Qc_of_Z 20)%Qc.
Proof.
  unfold update_logic_with_analysis. intros -> ->.
  destruct (as_number _) as [c|]; [|discriminate].
  destruct (int_to_float c) as [count|]; [|discriminate].
  intros [= <-]. cbn [current_green_duration].
  rewrite (py_max_min_clamp _ _ _ five_le_twenty).
  apply clamp_bounds, five_le_twenty.
Qed.

Lemma step_duration_inv (s s' : system) (e : event) :
  duration_inv s -> step s e s' -> duration_inv s'.
Proof.
  intros (Hb & Hm & Hlo & Hhi & Hdwell) Hstep.
  destruct Hstep as [s | s data self' Hup | s].
  - destruct s as [self p]. unfold duration_inv, cycle_step in *.
    cbn [controller cycle] in *.
    destruct p; cbn [snd controller cycle];
      try (destruct (set_state_duration self "red") as (-> & -> & ->));
      try (destruct (set_state_duration self "green") as (-> & -> & ->));
      try (destruct (set_state_duration self "yellow") as (-> & -> & ->));
      auto 10.
  - destruct (update_logic_bounds _ _ _ Hb Hm Hup) as [Hlo' Hhi'].
    apply update_logic_frame in Hup as (_ & Hb' & Hm').
    unfold duration_inv. cbn [controller cycle].
    rewrite Hb', Hm'. auto 10.
  - unfold duration_inv. auto 10.
Qed.

Lemma reachable_duration_inv (s : system) : reachable s -> duration_inv s.
Proof.
  induction 1 as [|s e s' _ IH Hstep].
  - unfold duration_inv. cbn.
    repeat split; auto using five_le_twenty, Qcle_refl.
  - eapply step_duration_inv; eauto.
Qed.

(** C1. For a controller with base duration 5 and maximum 20, in any light
    state and with any stored duration, an update whose dictionary carries a
    vehicle count [c] that the multiplication by 0.5 accepts (its magnitude is
    below 2^1024 - 2^970) succeeds and stores [clamp (5 + c * 0.5) 5 20], a
    value between 5 and 20, and changes nothing else; a count of 0 stores 5, a
    count of 10 stores 10, and a count of 40 stores 20. A larger count makes
    the multiplication raise, and nothing is stored. In every reachable state
    of the controller the base is 5, the maximum is 20, and the stored
    duration, like the duration of a green dwell under way, lies between
    them. *)
Theorem update_logic_stores_clamped_duration :
  (∀ (st : string) (d : Qc) (data : gmap string pyval) (c : Z),
     Z.abs c < float_overflow ->
     ∃ d' : Qc,
       update_logic_with_analysis (mkController st (Qc_of_Z 5) (Qc_of_Z 20) d)
         (<["vehicle_count" := PyInt c]> data)
       = Some (mkController st (Qc_of_Z 5) (Qc_of_Z 20) d')
       ∧ d' = clamp (Qc_of_Z 5 + Qc_of_Z c * half)%Qc (Qc_of_Z 5) (Qc_of_Z 20)
       ∧ (Qc_of_Z 5 ≤ d')%Qc ∧ (d' ≤ Qc_of_Z 20)%Qc)
  ∧ (∀ (self : TrafficLightController) (data : gmap string pyval) (c : Z),
       float_overflow ≤ Z.abs c ->
       update_logic_with_analysis self (<["vehicle_count" := PyInt c]> data) = None)
  ∧ (∀ (st : string) (d : Qc) (data : gmap string pyval),
       update_logic_with_analysis (mkController st (Qc_of_Z 5) (Qc_of_Z 20) d)
         (<["vehicle_count" := PyInt 0]> data)
       = Some (mkController st (Qc_of_Z 5) (Qc_of_Z 20) (Qc_of_Z 5))
       ∧ update_logic_with_analysis (mkController st (Qc_of_Z 5) (Qc_of_Z 20) d)
           (<["vehicle_count" := PyInt 10]> data)
         = Some (mkController st (Qc_of_Z 5) (Qc_of_Z 20) (Qc_of_Z 10))
       ∧ update_logic_with_analysis (mkController st (Qc_of_Z 5) (Qc_of_Z 20) d)
           (<["vehicle_count" := PyInt 40]> data)
         = Some (mkController st (Qc_of_Z 5) (Qc_of_Z 20) (Qc_of_Z 20)))
  ∧ (∀ s : system, reachable s -> duration_inv s).
Proof.
  split; [|split; [|split]].
  - intros st d data c Hc.
    eexists. split.
    { rewrite (update_logic_with_count _ _ c) by (apply dict_get_insert || exact Hc).
      reflexivity. }
    cbn [green_light_base_duration green_light_max_duration].
    rewrite (py_max_min_clamp _ _ _ five_le_twenty).
    split; [reflexivity|]. apply clamp_bounds, five_le_twenty.
  - intros self data c Hc. unfold update_logic_with_analysis.
    rewrite dict_get_insert. cbn [as_number].
    by rewrite (int_to_float_overflow c Hc).
  - intros st d data.
    rewrite (update_logic_with_count _ _ 0) by (apply dict_get_insert || reflexivity).
    rewrite (update_logic_with_count _ _ 10) by (apply dict_get_insert || reflexivity).
    rewrite (update_logic_with_count _ _ 40) by (apply dict_get_insert || reflexivity).
    cbn [green_light_base_duration green_light_max_duration state].
    split; [|split]; do 2 f_equal; try (apply Qc_is_canon; reflexivity).
  - apply reachable_duration_inv.
Qed.

Lemma update_logic_stores_clamped_duration_witness :
  (∃ d' : Qc,
     update_logic_with_analysis init (<["vehicle_count" := PyInt 10]> ∅)
     = Some (mkController "red" (Qc_of_Z 5) (Qc_of_Z 20) d')
     ∧ d' = clamp (Qc_of_Z 5 + Qc_of_Z 10 * half)%Qc (Qc_of_Z 5) (Qc_of_Z 20)
     ∧ (Qc_of_Z 5 ≤ d')%Qc ∧ (d' ≤ Qc_of_Z 20)%Qc)
  ∧ update_logic_with_analysis init (<["vehicle_count" := PyInt (2 ^ 1024)]> ∅) = None
  ∧ duration_inv
      (mkSystem (mkController "red" (Qc_of_Z 5) (Qc_of_Z 20) (Qc_of_Z 20)) L78_set_red).
Proof.
  split; [|split].
  - apply (proj1 update_logic_stores_clamped_duration "red" (Qc_of_Z 5) ∅ 10).
    reflexivity.
  - apply (proj1 (proj2 update_logic_stores_clamped_duration) init ∅ (2 ^ 1024)).
    vm_compute. discriminate.
  - apply (proj2 (proj2 (proj2 update_logic_stores_clamped_duration))).
    apply (reachable_step init_system (EvUpdate (<["vehicle_count" := PyInt 40]> ∅)));
      [apply reachable_init|].
    apply (step_update init_system (<["vehicle_count" := PyInt 40]> ∅)).
    reflexivity.
Defined.

End light_cycle.

(** ** Frame analysis *)

Section frame_analysis.
Import analyzer.

Lemma analysis_vehicle_count (n : Z) (status : string) :
  analysis n status !! "vehicle_count" = Some (PyInt n).
Proof. unfold analysis. by rewrite lookup_insert_eq. Qed.

Lemma analysis_status (n : Z) (status : string) :
  analysis n status !! "status" = Some (PyStr status).
Proof. unfold analysis. rewrite lookup_insert_ne by done. by rewrite lookup_insert_eq. Qed.

(** The loop adds one to the counter for each vehicle row it visits, and
    raises only at a class id that has no name. *)
Lemma detection_loop_counts (names : gmap Z string) (x_shape y_shape : Z)
    (todo : list detection) :
  ∀ (vehicle_count : Z) (f : frame),
    Forall (λ row, is_Some (names !! py_int (class_id row))) todo ->
    ∃ f' : frame,
      detection_loop names x_shape y_shape todo vehicle_count f
      = Some (vehicle_count
              + Z.of_nat (length (filter (λ row, is_vehicle names row = true) todo)),
              f').
Proof.
  induction todo as [|row rest IH]; intros vehicle_count f Hnamed.
  - exists f. cbn. f_equal. f_equal. lia.
  - inversion Hnamed as [|? ? [label_name Hname] Hrest]; subst.
    assert (is_vehicle names row = bool_decide (label_name ∈ vehicle_classes))
      as Hv by (unfold is_vehicle; by rewrite Hname).
    cbn [detection_loop]. rewrite Hname.
    destruct (bool_decide (label_name ∈ vehicle_classes)) eqn:Hclass.
    + destruct (IH (vehicle_count + 1)
                 (draw (PutText (capitalize label_name) row x_shape y_shape)
                    (draw (Rectangle row x_shape y_shape) f)) Hrest)
        as [f' Hloop].
      exists f'. rewrite Hloop. rewrite filter_cons_True by exact Hv.
      cbn [length]. f_equal. f_equal. lia.
    + destruct (IH vehicle_count f Hrest) as [f' Hloop].
      exists f'. rewrite Hloop. rewrite filter_cons_False by congruence.
      reflexivity.
Qed.

(** C3. With a loaded model whose every reported class id has a name, 
    [process_frame] returns and retains an analysis result whose vehicle count
    is the number of detections named car, motorcycle, bus or truck, a number
    that is not negative; the other detections add nothing. *)
Theorem process_frame_counts_vehicle_detections
    (self : VideoAnalyzer) (detect : frame -> results) (f : frame) :
  model self = Some detect ->
  Forall (λ row, is_Some (names (detect f) !! py_int (class_id row)))
         (xyxyn0 (detect f)) ->
  ∃ (self' : VideoAnalyzer) (f' : frame) (data : gmap string pyval),
    process_frame self f = Some (self', f', data)
    ∧ get_latest_analysis self' = data
    ∧ data !! "vehicle_count"
      = Some (PyInt (Z.of_nat (length (vehicle_detections (detect f)))))
    ∧ data !! "status" = Some (PyStr "Processing")
    ∧ 0 ≤ Z.of_nat (length (vehicle_detections (detect f))).
Proof.
  intros Hmodel Hnamed. unfold process_frame. rewrite Hmodel.
  destruct (detection_loop_counts (names (detect f)) (cols f) (rows f)
              (xyxyn0 (detect f)) 0 f Hnamed) as [f' Hloop].
  rewrite Hloop. rewrite Z.add_0_l.
  eexists _, f', _. split; [reflexivity|].
  split; [reflexivity|]. split; [apply analysis_vehicle_count|].
  split; [apply analysis_status | lia].
Qed.

Lemma process_frame_counts_vehicle_detections_witness :
  ∃ data : gmap string pyval,
    snd <$> process_frame (init "static/videos/traffic.mp4" 0%Qc (Some sample_model))
              (sample_frame 0)
    = Some data
    ∧ data !! "vehicle_count" = Some (PyInt 2).
Proof.
  destruct (process_frame_counts_vehicle_detections
              (init "static/videos/traffic.mp4" 0%Qc (Some sample_model))
              sample_model (sample_frame 0) eq_refl)
    as (self' & f' & data & Hproc & _ & Hcount & _).
  { repeat constructor; eexists; reflexivity. }
  exists data. split; [by rewrite Hproc|].
  rewrite Hcount. vm_compute. reflexivity.
Defined.

(** What the loop writes on the sample frame: the capitalized label of the
    car, then that of the truck; nothing for the person. *)
Example process_frame_labels_vehicles :
  (drawn_texts ∘ snd ∘ fst) <$>
    process_frame (init "static/videos/traffic.mp4" 0%Qc (Some sample_model))
      (sample_frame 0)
  = Some ["Truck"; "Car"].
Proof. vm_compute. reflexivity. Qed.

End frame_analysis.

(** ** The retained analysis result *)

Section retained_analysis.
Import analyzer.

Lemma detection_loop_result (names : gmap Z string) (x_shape y_shape : Z)
    (todo : list detection) :
  ∀ (vehicle_count n : Z) (f f' : frame),
    detection_loop names x_shape y_shape todo vehicle_count f = Some (n, f') ->
    vehicle_count ≤ n.
Proof.
  induction todo as [|row rest IH]; intros vehicle_count n f f'; cbn [detection_loop].
  - intros [= <- _]. lia.
  - destruct (names !! py_int (class_id row)) as [label_name|]; [|discriminate].
    destruct (bool_decide _); intros Hloop; apply IH in Hloop; lia.
Qed.

Lemma detection_loop_at_most (names : gmap Z string) (x_shape y_shape : Z)
    (todo : list detection) :
  ∀ (vehicle_count n : Z) (f f' : frame),
    detection_loop names x_shape y_shape todo vehicle_count f = Some (n, f') ->
    n ≤ vehicle_count + Z.of_nat (length todo).
Proof.
  induction todo as [|row rest IH]; intros vehicle_count n f f'; cbn [detection_loop].
  - intros [= <- _]. cbn [length]. lia.
  - destruct (names !! py_int (class_id row)) as [label_name|]; [|discriminate].
    destruct (bool_decide _); intros Hloop; apply IH in Hloop; cbn [length]; lia.
Qed.

Lemma process_frame_no_model (a : VideoAnalyzer) (f : frame) :
  model a = None ->
  process_frame a f = Some (a, f, analysis 0 "Model not loaded").
Proof. unfold process_frame. by intros ->. Qed.

(** What a call of [process_frame] that returns can have done. *)
Lemma process_frame_inv (a a' : VideoAnalyzer) (f f' : frame)
    (d : gmap string pyval) :
  process_frame a f = Some (a', f', d) ->
  ∃ (n : Z) (status : string),
    d = analysis n status ∧ 0 ≤ n < 2 ^ 63
    ∧ (a' = a ∨ a' = set_latest_analysis_data a d)
    ∧ model a' = model a
    ∧ last_capture_time a' = last_capture_time a
    ∧ capture_interval a' = capture_interval a.
Proof.
  unfold process_frame. destruct (model a) as [detect|] eqn:Hmodel.
  - destruct (detection_loop _ _ _ _ _ _) as [[n f1]|] eqn:Hloop; [|discriminate].
    intros [= <- <- <-].
    pose proof (detection_loop_result _ _ _ _ _ _ _ _ Hloop) as Hlow.
    pose proof (detection_loop_at_most _ _ _ _ _ _ _ _ Hloop) as Hhigh.
    pose proof (xyxyn0_rows (detect f)) as Hrows.
    exists n, "Processing". cbn [model last_capture_time capture_interval
                                   set_latest_analysis_data].
    split; [reflexivity|]. split; [lia|]. auto 10.
  - intros [= <- <- <-]. exists 0, "Model not loaded". rewrite Hmodel.
    split; [reflexivity|]. split; [lia|]. auto.
Qed.

Lemma update_logic_total_on_analysis (c : traffic_light.TrafficLightController)
    (n : Z) (status : string) :
  0 ≤ n < 2 ^ 63 ->
  is_Some (traffic_light.update_logic_with_analysis c (analysis n status)).
Proof.
  intros Hn. erewrite (update_logic_with_count c (analysis n status) n); [eauto| |].
  - unfold dict_get. by rewrite analysis_vehicle_count.
  - apply machine_integer_in_range. lia.
Qed.

Lemma reachable_latest (a0 a : VideoAnalyzer) :
  (∃ (n : Z) (status : string),
     latest_analysis_data a0 = analysis n status ∧ 0 ≤ n) ->
  reachable a0 a ->
  ∃ (n : Z) (status : string), latest_analysis_data a = analysis n status ∧ 0 ≤ n.
Proof.
  intros Hinit. induction 1 as [|a f a' f' d _ IH Hproc|a t _ IH]; [exact Hinit| |exact IH].
  apply process_frame_inv in Hproc as (n & status & -> & [Hn _] & [-> | ->] & _).
  - exact IH.
  - exists n, status. auto.
Qed.

(** One pass keeps the analyzer among the states that calls of
    [process_frame] and resets of the capture timer lead to. *)
Lemma iteration_reachable (video : list frame) (imencode : frame -> option string)
    (a0 : VideoAnalyzer) (now : Qc) (w w' : pipeline) (o : outcome) :
  iteration video imencode now w = Some (o, w') ->
  reachable a0 (self w) -> reachable a0 (self w').
Proof.
  unfold iteration. intros Hit Hreach.
  destruct (video !! position w) as [f|]; [|by injection Hit as _ <-].
  destruct (process_frame (self w) f) as [[[a1 pf] d]|] eqn:Hproc; [|discriminate].
  destruct (traffic_light.update_logic_with_analysis _ d) as [c1|]; [|discriminate].
  assert (reachable a0 a1) as Hreach1 by (eapply reachable_process; eauto).
  assert (reachable a0 (if bool_decide (capture_interval a1 < now - last_capture_time a1)%Qc
                        then set_last_capture_time a1 now else a1)) as Hreach2.
  { destruct (bool_decide _); [by apply reachable_capture | exact Hreach1]. }
  destruct (imencode pf); injection Hit as _ <-; exact Hreach2.
Qed.

Lemma loop_reachable (video : list frame) (imencode : frame -> option string)
    (a0 : VideoAnalyzer) (clock : list Qc) :
  ∀ (w w' : pipeline) (chunks : list string),
    loop video imencode clock w = (chunks, Running w') ->
    reachable a0 (self w) -> reachable a0 (self w').
Proof.
  induction clock as [|now later IH]; intros w w' chunks; cbn [loop].
  - by intros [= _ <-].
  - destruct (iteration video imencode now w) as [[o w1]|] eqn:Hit; [|discriminate].
    destruct (loop video imencode later w1) as [chunks1 st] eqn:Hloop.
    intros [= _ ->] Hreach.
    eapply IH; [exact Hloop|]. eapply iteration_reachable; eauto.
Qed.

(** C10. Right after construction, whether or not the model loaded,
    [get_latest_analysis] returns vehicle count 0 with status
    ["Initializing..."]. In every state the analyzer reaches from there
    through calls of [process_frame] and resets of the capture timer, and so
    at every point of a run of [generate_frames], the retained result is a
    dictionary with a vehicle count that is not negative. *)
Theorem latest_analysis_initial_and_nonnegative :
  (∀ (path : string) (now : Qc) (loaded : option (frame -> results)),
     get_latest_analysis (init path now loaded) = analysis 0 "Initializing..."
     ∧ get_latest_analysis (init path now loaded) !! "vehicle_count" = Some (PyInt 0)
     ∧ get_latest_analysis (init path now loaded) !! "status"
       = Some (PyStr "Initializing..."))
  ∧ (∀ (path : string) (now : Qc) (loaded : option (frame -> results))
       (a : VideoAnalyzer),
       reachable (init path now loaded) a ->
       ∃ n : Z, get_latest_analysis a !! "vehicle_count" = Some (PyInt n) ∧ 0 ≤ n)
  ∧ (∀ (path : string) (now : Qc) (loaded : option (frame -> results))
       (c : traffic_light.TrafficLightController) (video : list frame)
       (imencode : frame -> option string) (clock : list Qc)
       (chunks : list string) (w : pipeline),
       generate_frames (Some video) imencode clock (init path now loaded) c
       = (chunks, Running w) ->
       ∃ n : Z,
         get_latest_analysis (self w) !! "vehicle_count" = Some (PyInt n) ∧ 0 ≤ n).
Proof.
  assert (∀ path now loaded a, reachable (init path now loaded) a ->
          ∃ n : Z, get_latest_analysis a !! "vehicle_count" = Some (PyInt n) ∧ 0 ≤ n)
    as Hreachable.
  { intros path now loaded a Hreach.
    destruct (reachable_latest (init path now loaded) a) as (n & status & Hlatest & Hn);
      [by exists 0, "Initializing..." | exact Hreach |].
    exists n. unfold get_latest_analysis. rewrite Hlatest.
    split; [apply analysis_vehicle_count | exact Hn]. }
  split; [|split].
  - intros path now loaded. split; [reflexivity|]. split; reflexivity.
  - exact Hreachable.
  - intros path now loaded c video imencode clock chunks w Hrun.
    apply (Hreachable path now loaded).
    apply (loop_reachable video imencode _ clock (start (init path now loaded) c) w chunks Hrun).
    apply reachable_init.
Qed.

Lemma latest_analysis_initial_and_nonnegative_witness :
  ∃ n : Z,
    get_latest_analysis
      (set_latest_analysis_data
         (init "static/videos/traffic.mp4" 0%Qc (Some sample_model))
         (analysis 2 "Processing")) !! "vehicle_count" = Some (PyInt n)
    ∧ 0 ≤ n.
Proof.
  apply (proj1 (proj2 latest_analysis_initial_and_nonnegative)
           "static/videos/traffic.mp4" 0%Qc (Some sample_model)).
  eapply (reachable_process _ _ (sample_frame 0)); [apply reachable_init|].
  reflexivity.
Defined.

End retained_analysis.

(** ** The pipeline without a model *)

Section model_unavailable.
Import analyzer.

Variable video : list frame.
Variable imencode : frame -> option string.

Lemma iteration_no_model (now : Qc) (w : pipeline) :
  model (self w) = None ->
  ∃ (o : outcome) (w' : pipeline),
    iteration video imencode now w = Some (o, w')
    ∧ model (self w') = None
    ∧ latest_analysis_data (self w') = latest_analysis_data (self w)
    ∧ Forall (unmodified_chunk video imencode) (emitted o).
Proof.
  intros Hmodel. unfold iteration.
  destruct (video !! position w) as [f|] eqn:Hread.
  - rewrite (process_frame_no_model _ f Hmodel).
    destruct (update_logic_total_on_analysis (traffic_light_controller w)
                0 "Model not loaded") as [c1 ->]; [done|].
    destruct (imencode f) as [buffer|] eqn:Henc; eexists _, _;
      (split; [reflexivity|]); cbn [self];
      destruct (bool_decide _); cbn; repeat split; auto.
    all: constructor; [|constructor].
    all: exists f, buffer; split; [by eapply list_elem_of_lookup_2 | auto].
  - eexists _, _. split; [reflexivity|]. cbn. auto.
Qed.

Lemma loop_no_model (clock : list Qc) :
  ∀ w : pipeline,
    model (self w) = None ->
    ∃ (chunks : list string) (w' : pipeline),
      loop video imencode clock w = (chunks, Running w')
      ∧ model (self w') = None
      ∧ latest_analysis_data (self w') = latest_analysis_data (self w)
      ∧ Forall (unmodified_chunk video imencode) chunks.
Proof.
  induction clock as [|now later IH]; intros w Hmodel; cbn [loop].
  - exists [], w. auto.
  - destruct (iteration_no_model now w Hmodel) as (o & w1 & -> & Hmodel1 & Hlatest1 & Ho).
    destruct (IH w1 Hmodel1) as (chunks & w' & -> & Hmodel' & Hlatest' & Hchunks).
    exists (emitted o ++ chunks), w'. split; [reflexivity|].
    split; [exact Hmodel'|]. split; [congruence|].
    by apply Forall_app.
Qed.

End model_unavailable.

Section model_unavailable_run.
Import analyzer.

(** C2, as the code behaves. When the model failed to load, a run of
    [generate_frames] of any length never raises and every chunk it yields
    carries a frame of the file unmodified; [process_frame] returns vehicle
    count 0 with status ["Model not loaded"], but does not retain it: the
    result that [get_latest_analysis] returns keeps vehicle count 0 and
    the status ["Initializing..."] of the constructor. *)
Theorem model_unavailable_status_not_retained
    (path : string) (now : Qc) (c : traffic_light.TrafficLightController)
    (video : list frame) (imencode : frame -> option string) (clock : list Qc) :
  (∀ f : frame,
     process_frame (init path now None) f
     = Some (init path now None, f, analysis 0 "Model not loaded"))
  ∧ ∃ (chunks : list string) (w : pipeline),
      generate_frames (Some video) imencode clock (init path now None) c
      = (chunks, Running w)
      ∧ Forall (unmodified_chunk video imencode) chunks
      ∧ get_latest_analysis (self w) !! "vehicle_count" = Some (PyInt 0)
      ∧ get_latest_analysis (self w) !! "status" = Some (PyStr "Initializing...")
      ∧ get_latest_analysis (self w) !! "status" ≠ Some (PyStr "Model not loaded").
Proof.
  split; [intros f; by apply process_frame_no_model|].
  destruct (loop_no_model video imencode clock (start (init path now None) c) eq_refl)
    as (chunks & w & Hrun & _ & Hlatest & Hchunks).
  exists chunks, w. split; [exact Hrun|]. split; [exact Hchunks|].
  unfold get_latest_analysis. rewrite Hlatest. cbn [start self init latest_analysis_data].
  split; [reflexivity|]. split; [reflexivity|]. discriminate.
Qed.

(** Three passes over a two-frame file, with no model: two chunks, and the
    status of the constructor still retained. *)
Example model_unavailable_run :
  let run :=
    generate_frames (Some [sample_frame 0; sample_frame 1]) sample_imencode
      [Qc_of_Z 1; Qc_of_Z 2; Qc_of_Z 3]
      (init "static/videos/traffic.mp4" 0%Qc None) traffic_light.init in
  length (fst run) = 2%nat
  ∧ match snd run with
    | Running w => get_latest_analysis (self w) !! "status"
    | _ => None
    end = Some (PyStr "Initializing...").
Proof. vm_compute. split; reflexivity. Qed.

End model_unavailable_run.

(** ** The capture timer *)

Section capture_timer.
Import analyzer.

Lemma Qc_gap_chain (i a b c : Qc) :
  (0 < i)%Qc -> (i < a - b)%Qc -> (i < b - c)%Qc -> (i < a - c)%Qc.
Proof.
  intros Hpos Hab Hbc.
  replace (a - c)%Qc with ((a - b) + (b - c))%Qc by ring.
  apply Qclt_trans with (i + (b - c))%Qc.
  - rewrite <- (Qcplus_0_r i) at 1. apply Qcplus_lt_mono_l.
    by apply Qclt_trans with i.
  - by apply Qcplus_lt_mono_r.
Qed.

Lemma spaced_from_head (interval t : Qc) (earlier : list Qc) :
  (0 < interval)%Qc -> spaced interval (t :: earlier) ->
  ∀ (j : nat) (t' : Qc), earlier !! j = Some t' -> (interval < t - t')%Qc.
Proof.
  intros Hpos. revert t.
  induction earlier as [|t1 rest IH]; intros t Hsp j t' Hj; [done|].
  destruct Hsp as [Hgap Hrest].
  destruct j as [|j]; cbn in Hj.
  - by injection Hj as <-.
  - apply Qc_gap_chain with t1; [exact Hpos | exact Hgap |].
    by apply (IH t1 Hrest j).
Qed.

Lemma spaced_pairwise (interval : Qc) (log : list Qc) :
  (0 < interval)%Qc -> spaced interval log ->
  ∀ (i j : nat) (t t' : Qc),
    (i < j)%nat -> log !! i = Some t -> log !! j = Some t' ->
    (interval < t - t')%Qc.
Proof.
  intros Hpos. induction log as [|t0 rest IH]; intros Hsp i j t t' Hij Hi Hj; [done|].
  destruct j as [|j]; [lia|]. cbn in Hj.
  destruct i as [|i]; cbn in Hi.
  - injection Hi as <-. by apply (spaced_from_head interval t0 rest Hpos Hsp j).
  - destruct Hsp as [_ Hrest]. apply (IH Hrest i j); [lia | done | done].
Qed.

(** What one pass that read a frame does to the capture timer. *)
Lemma iteration_capture (video : list frame) (imencode : frame -> option string)
    (now : Qc) (w w' : pipeline) (o : outcome) (f : frame) :
  video !! position w = Some f ->
  iteration video imencode now w = Some (o, w') ->
  capture_interval (self w') = capture_interval (self w)
  ∧ ((capture_interval (self w) < now - last_capture_time (self w))%Qc
     ∧ (∃ (a1 : VideoAnalyzer) (processed_frame : frame) (d : gmap string pyval),
          process_frame (self w) f = Some (a1, processed_frame, d)
          ∧ saved w' = (now, processed_frame) :: saved w)
     ∧ last_capture_time (self w') = now
     ∨ ¬ (capture_interval (self w) < now - last_capture_time (self w))%Qc
       ∧ saved w' = saved w
       ∧ last_capture_time (self w') = last_capture_time (self w)).
Proof.
  intros Hread. unfold iteration. rewrite Hread.
  destruct (process_frame (self w) f) as [[[a1 pf] d]|] eqn:Hproc; [|discriminate].
  destruct (process_frame_inv _ _ _ _ _ Hproc) as (n & status & _ & _ & _ & _ & Hlast & Hint).
  destruct (traffic_light.update_logic_with_analysis _ d) as [c1|]; [|discriminate].
  rewrite Hlast, Hint. intros Hit.
  assert (w' = {| self := if bool_decide (capture_interval (self w)
                                           < now - last_capture_time (self w))%Qc
                          then set_last_capture_time a1 now else a1;
                  traffic_light_controller := c1;
                  position := S (position w);
                  saved := if bool_decide (capture_interval (self w)
                                            < now - last_capture_time (self w))%Qc
                           then (now, pf) :: saved w else saved w |}) as ->.
  { destruct (imencode pf); by injection Hit as _ <-. }
  cbn [self saved]. case_bool_decide as Hdue; cbn.
  - split; [exact Hint|]. left. split; [exact Hdue|]. split; [|reflexivity].
    exists a1, pf, d. auto.
  - split; [exact Hint|]. right. auto.
Qed.

Lemma iteration_timer_inv (video : list frame) (imencode : frame -> option string)
    (t0 now : Qc) (w w' : pipeline) (o : outcome) :
  iteration video imencode now w = Some (o, w') ->
  timer_inv t0 w -> timer_inv t0 w'.
Proof.
  intros Hit (Hint & Hhead & Hsp).
  destruct (video !! position w) as [f|] eqn:Hread.
  - destruct (iteration_capture video imencode now w w' o f Hread Hit)
      as (Hint' & [(Hdue & (a1 & pf & d & _ & Hsaved) & Hlast) | (_ & Hsaved & Hlast)]).
    + unfold timer_inv, capture_times. rewrite Hsaved, Hint', Hlast.
      split; [exact Hint|]. split; [reflexivity|].
      cbn. split; [|exact Hsp].
      unfold capture_times in Hhead.
      destruct (fst <$> saved w) as [|t rest]; cbn in *;
        injection Hhead as ->; by rewrite <- Hint.
    + unfold timer_inv, capture_times. rewrite Hsaved, Hint', Hlast. auto.
  - unfold iteration in Hit. rewrite Hread in Hit. injection Hit as _ <-.
    split; [exact Hint|]. split; [exact Hhead | exact Hsp].
Qed.

Lemma loop_timer_inv (video : list frame) (imencode : frame -> option string)
    (t0 : Qc) (clock : list Qc) :
  ∀ (w w' : pipeline) (chunks : list string),
    loop video imencode clock w = (chunks, Running w') ->
    timer_inv t0 w -> timer_inv t0 w'.
Proof.
  induction clock as [|now later IH]; intros w w' chunks; cbn [loop].
  - by intros [= _ <-].
  - destruct (iteration video imencode now w) as [[o w1]|] eqn:Hit; [|discriminate].
    destruct (loop video imencode later w1) as [chunks1 st] eqn:Hloop.
    intros [= _ ->] Hinv.
    eapply IH; [exact Hloop|]. eapply iteration_timer_inv; eauto.
Qed.

Lemma five_positive : (0 < Qc_of_Z 5)%Qc.
Proof. reflexivity. Qed.

(** C7. On a pass that read a frame, the capture sink is called exactly when
    the clock reading exceeds the time of the last capture by more than the
    capture interval; the call receives the processed frame and resets the
    timer to that clock reading, and otherwise timer and sink are left alone.
    In a run of [generate_frames] on a freshly constructed analyzer the
    interval is 5 seconds, and any two calls of the sink, and any call and the
    construction, are more than 5 seconds apart, whatever the clock readings
    and however many passes are made. *)
Theorem capture_at_most_once_per_interval :
  (∀ (video : list frame) (imencode : frame -> option string) (now : Qc)
     (w w' : pipeline) (o : outcome) (f : frame),
     video !! position w = Some f ->
     iteration video imencode now w = Some (o, w') ->
     ((capture_interval (self w) < now - last_capture_time (self w))%Qc
      <-> ∃ processed_frame : frame, saved w' = (now, processed_frame) :: saved w)
     ∧ ((capture_interval (self w) < now - last_capture_time (self w))%Qc ->
        last_capture_time (self w') = now
        ∧ ∃ (a1 : VideoAnalyzer) (d : gmap string pyval) (processed_frame : frame),
            process_frame (self w) f = Some (a1, processed_frame, d)
            ∧ saved w' = (now, processed_frame) :: saved w)
     ∧ (¬ (capture_interval (self w) < now - last_capture_time (self w))%Qc ->
        last_capture_time (self w') = last_capture_time (self w)
        ∧ saved w' = saved w))
  ∧ (∀ (path : string) (t0 : Qc) (loaded : option (frame -> results))
       (c : traffic_light.TrafficLightController) (video : list frame)
       (imencode : frame -> option string) (clock : list Qc)
       (chunks : list string) (w : pipeline),
       generate_frames (Some video) imencode clock (init path t0 loaded) c
       = (chunks, Running w) ->
       capture_interval (self w) = Qc_of_Z 5
       ∧ ∀ (i j : nat) (t t' : Qc),
           (i < j)%nat ->
           capture_times t0 w !! i = Some t ->
           capture_times t0 w !! j = Some t' ->
           (Qc_of_Z 5 < t - t')%Qc).
Proof.
  split.
  - intros video imencode now w w' o f Hread Hit.
    destruct (iteration_capture video imencode now w w' o f Hread Hit)
      as (_ & [(Hdue & (a1 & pf & d & Hproc & Hsaved) & Hlast) | (Hnot & Hsaved & Hlast)]).
    + split; [split; eauto|]. split; [|done].
      intros _. split; [exact Hlast|]. exists a1, d, pf. auto.
    + split; [|split; [done | auto]].
      split; [done|]. intros [pf Hgrown]. exfalso.
      rewrite Hsaved in Hgrown. apply (f_equal length) in Hgrown.
      cbn in Hgrown. lia.
  - intros path t0 loaded c video imencode clock chunks w Hrun.
    assert (timer_inv t0 w) as (Hint & _ & Hsp).
    { apply (loop_timer_inv video imencode t0 clock
               (start (init path t0 loaded) c) w chunks Hrun).
      split; [reflexivity|]. split; [reflexivity|]. cbn. auto. }
    split; [exact Hint|].
    apply spaced_pairwise; [exact five_positive | exact Hsp].
Qed.

Lemma capture_at_most_once_per_interval_witness :
  generate_frames (Some [sample_frame 0]) sample_imencode [Qc_of_Z 6]
    (init "static/videos/traffic.mp4" 0%Qc None) traffic_light.init
  = (fst sample_run, Running sample_final)
  ∧ capture_times 0%Qc sample_final = [Qc_of_Z 6; 0%Qc]
  ∧ (Qc_of_Z 5 < Qc_of_Z 6 - 0)%Qc.
Proof.
  assert (generate_frames (Some [sample_frame 0]) sample_imencode [Qc_of_Z 6]
            (init "static/videos/traffic.mp4" 0%Qc None) traffic_light.init
          = (fst sample_run, Running sample_final)) as Hrun
    by (vm_compute; reflexivity).
  assert (capture_times 0%Qc sample_final = [Qc_of_Z 6; 0%Qc]) as Htimes
    by (vm_compute; reflexivity).
  split; [exact Hrun|]. split; [exact Htimes|].
  apply (proj2 (proj2 capture_at_most_once_per_interval
                  "static/videos/traffic.mp4" 0%Qc None
                  traffic_light.init [sample_frame 0] sample_imencode [Qc_of_Z 6]
                  (fst sample_run) sample_final Hrun) 0%nat 1%nat).
  - lia.
  - by rewrite Htimes.
  - by rewrite Htimes.
Defined.

(** Five passes over a two-frame file with clock readings 1, 6, 7, 12, 13
    after a construction at 0: the sink is called at 6 and at 12. *)
Example capture_times_of_a_run :
  match snd (generate_frames (Some [sample_frame 0; sample_frame 1]) sample_imencode
               [Qc_of_Z 1; Qc_of_Z 6; Qc_of_Z 7; Qc_of_Z 12; Qc_of_Z 13]
               (init "static/videos/traffic.mp4" 0%Qc None) traffic_light.init) with
  | Running w => fst <$> saved w
  | _ => []
  end = [Qc_of_Z 12; Qc_of_Z 6].
Proof. vm_compute. reflexivity. Qed.

End capture_timer.

(** ** The frame sequence *)

Section frame_sequence.
Import analyzer.

Variable video : list frame.
Variable imencode : frame -> option string.

Lemma process_frame_model_only (a a' : VideoAnalyzer) (f : frame) :
  model a = model a' ->
  (is_Some (process_frame a f) -> is_Some (process_frame a' f))
  ∧ chunk_of a imencode f = chunk_of a' imencode f.
Proof.
  unfold chunk_of, process_frame. intros <-.
  destruct (model a) as [detect|]; [|by eauto].
  destruct (detection_loop _ _ _ _ _ _) as [[n f1]|]; [by eauto|].
  split; [by intros [? ?] | reflexivity].
Qed.

Lemma iteration_end_of_media (now : Qc) (w : pipeline) :
  video !! position w = None ->
  iteration video imencode now w = Some (Continue, set_position w 0).
Proof. unfold iteration. by intros ->. Qed.

(** A pass that reads a frame yields the chunk of that frame, if the encoder
    gives one, and moves to the next position. *)
Lemma iteration_frame (now : Qc) (w : pipeline) (f : frame) :
  video !! position w = Some f ->
  is_Some (process_frame (self w) f) ->
  ∃ (o : outcome) (w' : pipeline),
    iteration video imencode now w = Some (o, w')
    ∧ emitted o = option_list (chunk_of (self w) imencode f)
    ∧ position w' = S (position w)
    ∧ model (self w') = model (self w).
Proof.
  intros Hread [[[a1 pf] d] Hproc]. unfold iteration, chunk_of.
  rewrite Hread, Hproc.
  destruct (process_frame_inv _ _ _ _ _ Hproc)
    as (n & status & -> & Hn & _ & Hmodel & _).
  destruct (update_logic_total_on_analysis (traffic_light_controller w) n status Hn)
    as [c1 ->].
  destruct (imencode pf) as [buffer|]; eexists _, _;
    (split; [reflexivity|]); cbn; destruct (bool_decide _); auto.
Qed.

Lemma loop_never_returns (clock : list Qc) :
  ∀ w : pipeline, snd (loop video imencode clock w) ≠ Returned.
Proof.
  induction clock as [|now later IH]; intros w; cbn [loop]; [done|].
  destruct (iteration video imencode now w) as [[o w1]|]; [|done].
  specialize (IH w1). by destruct (loop video imencode later w1).
Qed.

Lemma loop_app (clock1 clock2 : list Qc) :
  ∀ (w w1 : pipeline) (chunks1 : list string),
    loop video imencode clock1 w = (chunks1, Running w1) ->
    loop video imencode (clock1 ++ clock2) w
    = (chunks1 ++ fst (loop video imencode clock2 w1),
       snd (loop video imencode clock2 w1)).
Proof.
  induction clock1 as [|now later IH]; intros w w1 chunks1; cbn [loop app].
  - intros [= <- <-]. by destruct (loop video imencode clock2 w).
  - destruct (iteration video imencode now w) as [[o w']|]; [|discriminate].
    destruct (loop video imencode later w') as [chunks st] eqn:Hloop.
    intros [= <- ->]. rewrite (IH w' w1 chunks Hloop).
    by rewrite (assoc_L (++)).
Qed.

(** From any position, the passes up to and including the one whose read
    fails yield the chunks of the remaining frames, in order, and leave the
    source at the first frame. *)
Lemma loop_to_end_of_media (a : VideoAnalyzer) (rest : list frame) :
  (∀ f : frame, f ∈ video -> is_Some (process_frame a f)) ->
  ∀ (seen : list frame) (w : pipeline) (clock : list Qc),
    video = seen ++ rest ->
    position w = length seen ->
    model (self w) = model a ->
    length clock = S (length rest) ->
    ∃ w' : pipeline,
      loop video imencode clock w
      = (omap (chunk_of a imencode) rest, Running w')
      ∧ position w' = 0%nat
      ∧ model (self w') = model a.
Proof.
  intros Hok. induction rest as [|f rest IH]; intros seen w clock Hvideo Hpos Hmodel Hlen.
  - destruct clock as [|now [|? ?]]; try discriminate.
    cbn [loop]. rewrite iteration_end_of_media.
    + exists (set_position w 0). auto.
    + apply lookup_ge_None_2. rewrite Hvideo, Hpos, length_app. cbn. lia.
  - destruct clock as [|now later]; [discriminate|].
    assert (video !! position w = Some f) as Hread.
    { rewrite Hvideo, Hpos. by apply list_lookup_middle. }
    assert (f ∈ video) as Hin by (by eapply list_elem_of_lookup_2).
    destruct (process_frame_model_only a (self w) f (eq_sym Hmodel)) as [Hsome Hchunk].
    destruct (iteration_frame now w f Hread (Hsome (Hok f Hin)))
      as (o & w1 & Hit & Hemit & Hpos1 & Hmodel1).
    destruct (IH (seen ++ [f]) w1 later) as (w' & Hloop & Hpos' & Hmodel').
    + by rewrite <- (assoc_L (++)).
    + rewrite Hpos1, Hpos, length_app. cbn. lia.
    + congruence.
    + cbn in Hlen. lia.
    + exists w'. cbn [loop]. rewrite Hit, Hloop, Hemit, <- Hchunk.
      split; [|auto]. f_equal. cbn [omap list_omap].
      by destruct (chunk_of a imencode f).
Qed.

(** [k] times through the file. *)
Lemma loop_rounds (a : VideoAnalyzer) (k : nat) :
  (∀ f : frame, f ∈ video -> is_Some (process_frame a f)) ->
  ∀ (w : pipeline) (clock : list Qc),
    position w = 0%nat ->
    model (self w) = model a ->
    length clock = (k * S (length video))%nat ->
    ∃ w' : pipeline,
      loop video imencode clock w
      = (mjoin (replicate k (omap (chunk_of a imencode) video)), Running w')
      ∧ position w' = 0%nat
      ∧ model (self w') = model a.
Proof.
  intros Hok. induction k as [|k IH]; intros w clock Hpos Hmodel Hlen.
  - destruct clock; [|discriminate]. exists w. auto.
  - rewrite <- (take_drop (S (length video)) clock).
    destruct (loop_to_end_of_media a video Hok [] w (take (S (length video)) clock))
      as (w1 & Hloop1 & Hpos1 & Hmodel1); [done | done | done | |].
    { rewrite length_take. lia. }
    destruct (IH w1 (drop (S (length video)) clock) Hpos1 Hmodel1)
      as (w' & Hloop2 & Hpos' & Hmodel').
    { rewrite length_drop. lia. }
    exists w'. rewrite (loop_app _ _ _ _ _ Hloop1), Hloop2. auto.
Qed.

Lemma length_rounds (lap : list string) (k : nat) :
  length (mjoin (replicate k lap)) = (k * length lap)%nat.
Proof.
  induction k as [|k IH]; [reflexivity|].
  change (mjoin (replicate (S k) lap)) with (lap ++ mjoin (replicate k lap)).
  rewrite length_app, IH. lia.
Qed.

End frame_sequence.

Section frame_sequence_run.
Import analyzer.

(** C6. A pass whose read fails sets the source back to the first frame and
    goes on with the loop, and a run on an opened file never returns. When
    processing the frames of the file does not raise, going [k] times through
    the file yields [k] times the chunks of its frames, in their order; so
    when at least one frame of the file gets encoded, the sequence of chunks
    grows beyond every length. *)
Theorem generate_frames_restarts_at_end_of_media :
  (∀ (video : list frame) (imencode : frame -> option string) (now : Qc)
     (w : pipeline),
     video !! position w = None ->
     iteration video imencode now w = Some (Continue, set_position w 0))
  ∧ (∀ (video : list frame) (imencode : frame -> option string) (clock : list Qc)
       (a : VideoAnalyzer) (c : traffic_light.TrafficLightController),
       snd (generate_frames (Some video) imencode clock a c) ≠ Returned)
  ∧ (∀ (video : list frame) (imencode : frame -> option string) (clock : list Qc)
       (a : VideoAnalyzer) (c : traffic_light.TrafficLightController) (k : nat),
       (∀ f : frame, f ∈ video -> is_Some (process_frame a f)) ->
       length clock = (k * S (length video))%nat ->
       ∃ w : pipeline,
         generate_frames (Some video) imencode clock a c
         = (mjoin (replicate k (omap (chunk_of a imencode) video)), Running w)
         ∧ position w = 0%nat)
  ∧ (∀ (video : list frame) (imencode : frame -> option string) (clock : nat -> Qc)
       (a : VideoAnalyzer) (c : traffic_light.TrafficLightController) (n : nat),
       (∀ f : frame, f ∈ video -> is_Some (process_frame a f)) ->
       omap (chunk_of a imencode) video ≠ [] ->
       ∃ k : nat,
         (n ≤ length (fst (generate_frames (Some video) imencode
                             (clock <$> seq 0 k) a c)))%nat).
Proof.
  split; [|split; [|split]].
  - intros video imencode now w. apply iteration_end_of_media.
  - intros video imencode clock a c. apply loop_never_returns.
  - intros video imencode clock a c k Hok Hlen.
    destruct (loop_rounds video imencode a k Hok (start a c) clock)
      as (w & Hloop & Hpos & _); [done | done | exact Hlen |].
    exists w. auto.
  - intros video imencode clock a c n Hok Hsome.
    exists (n * S (length video))%nat.
    destruct (loop_rounds video imencode a n Hok (start a c)
                (clock <$> seq 0 (n * S (length video))))
      as (w & Hloop & _); [done | done | by rewrite length_fmap, length_seq |].
    cbn [generate_frames]. rewrite Hloop. cbn [fst]. rewrite length_rounds.
    destruct (omap (chunk_of a imencode) video); [done|]. cbn [length]. nia.
Qed.

Lemma generate_frames_restarts_at_end_of_media_witness :
  ∃ w : pipeline,
    generate_frames (Some [sample_frame 0; sample_frame 1]) sample_imencode
      [Qc_of_Z 1; Qc_of_Z 2; Qc_of_Z 3; Qc_of_Z 4; Qc_of_Z 5; Qc_of_Z 6]
      (init "static/videos/traffic.mp4" 0%Qc None) traffic_light.init
    = (mjoin (replicate 2
                (omap (chunk_of (init "static/videos/traffic.mp4" 0%Qc None)
                         sample_imencode)
                      [sample_frame 0; sample_frame 1])),
       Running w)
    ∧ position w = 0%nat.
Proof.
  apply (proj1 (proj2 (proj2 generate_frames_restarts_at_end_of_media))
           [sample_frame 0; sample_frame 1] sample_imencode
           [Qc_of_Z 1; Qc_of_Z 2; Qc_of_Z 3; Qc_of_Z 4; Qc_of_Z 5; Qc_of_Z 6]
           (init "static/videos/traffic.mp4" 0%Qc None)
           traffic_light.init 2%nat).
  - intros f _. eexists. reflexivity.
  - reflexivity.
Defined.

(** Six passes over a two-frame file: frames 0 and 1, the rewind, frames 0
    and 1 again, the rewind. *)
Example generate_frames_two_rounds :
  fst (generate_frames (Some [sample_frame 0; sample_frame 1]) sample_imencode
         [Qc_of_Z 1; Qc_of_Z 2; Qc_of_Z 3; Qc_of_Z 4; Qc_of_Z 5; Qc_of_Z 6]
         (init "static/videos/traffic.mp4" 0%Qc None) traffic_light.init)
  = replicate 4 (chunk_of_bytes "jpeg").
Proof. vm_compute. reflexivity. Qed.

(** A file that opens but holds no frame: the loop keeps rewinding and
    yields nothing. *)
Example generate_frames_empty_file :
  fst (generate_frames (Some []) sample_imencode [Qc_of_Z 1; Qc_of_Z 2; Qc_of_Z 3]
         (init "static/videos/traffic.mp4" 0%Qc None) traffic_light.init)
  = [].
Proof. vm_compute. reflexivity. Qed.

End frame_sequence_run.

(** ** More on the controller *)

Section controller_more.
Import traffic_light.

Lemma py_min_mono (x y hi : Qc) : (x ≤ y)%Qc -> (py_min x hi ≤ py_min y hi)%Qc.
Proof.
  intros Hxy. unfold py_min.
  destruct (decide (hi < x)%Qc) as [Hx|Hx]; destruct (decide (hi < y)%Qc) as [Hy|Hy].
  - apply Qcle_refl.
  - exfalso. apply Hy. by apply Qclt_le_trans with x.
  - by apply Qcnot_lt_le.
  - exact Hxy.
Qed.

Lemma py_max_mono (lo x y : Qc) : (x ≤ y)%Qc -> (py_max lo x ≤ py_max lo y)%Qc.
Proof.
  intros Hxy. unfold py_max.
  destruct (decide (lo < x)%Qc) as [Hx|Hx]; destruct (decide (lo < y)%Qc) as [Hy|Hy].
  - exact Hxy.
  - exfalso. apply Hy. by apply Qclt_le_trans with x.
  - by apply Qclt_le_weak.
  - apply Qcle_refl.
Qed.

Lemma calculated_duration_mono (base : Qc) (c1 c2 : Z) :
  c1 ≤ c2 ->
  (base + Qc_of_Z c1 * half ≤ base + Qc_of_Z c2 * half)%Qc.
Proof.
  intros Hle. apply Qcplus_le_mono_l. apply Qcmult_le_compat_r.
  - exact (proj1 (Z2Qc_inj_le c1 c2) Hle).
  - discriminate.
Qed.

(** What an update that returns has stored. *)
Lemma update_logic_Some_inv (self s : TrafficLightController)
    (data : gmap string pyval) :
  update_logic_with_analysis self data = Some s ->
  ∃ c : Z,
    as_number (dict_get data "vehicle_count" (PyInt 0)) = Some c
    ∧ Z.abs c < float_overflow
    ∧ s = {| state := state self;
             green_light_base_duration := green_light_base_duration self;
             green_light_max_duration := green_light_max_duration self;
             current_green_duration :=
               py_max (green_light_base_duration self)
                 (py_min (green_light_base_duration self + Qc_of_Z c * half)%Qc
                         (green_light_max_duration self)) |}.
Proof.
  unfold update_logic_with_analysis.
  destruct (as_number _) as [c|]; [|discriminate].
  destruct (int_to_float c) as [count|] eqn:Hfloat; [|discriminate].
  apply int_to_float_Some in Hfloat as [-> Hc].
  intros [= <-]. by exists c.
Qed.

(** X1. More vehicles never shorten the green phase: of two updates of the same
    controller, the one with the larger count stores a duration that is at
    least as long. *)
Theorem update_logic_monotone (self s1 s2 : TrafficLightController)
    (data1 data2 : gmap string pyval) (c1 c2 : Z) :
  c1 ≤ c2 ->
  update_logic_with_analysis self (<["vehicle_count" := PyInt c1]> data1) = Some s1 ->
  update_logic_with_analysis self (<["vehicle_count" := PyInt c2]> data2) = Some s2 ->
  (current_green_duration s1 ≤ current_green_duration s2)%Qc.
Proof.
  intros Hle H1 H2.
  apply update_logic_Some_inv in H1 as (c1' & Hc1 & _ & ->).
  apply update_logic_Some_inv in H2 as (c2' & Hc2 & _ & ->).
  rewrite dict_get_insert in Hc1, Hc2. injection Hc1 as <-. injection Hc2 as <-.
  cbn [current_green_duration].
  by apply py_max_mono, py_min_mono, calculated_duration_mono.
Qed.

Lemma update_logic_monotone_witness :
  (Qc_of_Z 10 ≤ Qc_of_Z 20)%Qc.
Proof.
  apply (update_logic_monotone init
           (mkController "red" (Qc_of_Z 5) (Qc_of_Z 20) (Qc_of_Z 10))
           (mkController "red" (Qc_of_Z 5) (Qc_of_Z 20) (Qc_of_Z 20))
           ∅ ∅ 10 40).
  - lia.
  - rewrite (update_logic_with_count _ _ 10) by (apply dict_get_insert || reflexivity).
    cbn. do 2 f_equal. apply Qc_is_canon. reflexivity.
  - reflexivity.
Defined.

(** X2. The thresholds of the clamp. With base 5 and maximum 20, for a
    count that the multiplication by 0.5 accepts (its magnitude is below
    2^1024 - 2^970): a count of zero or less stores 5, a count from 0 to 30
    stores 5 plus half a second per vehicle, and a count of 30 or more stores
    20. *)
Theorem update_logic_thresholds (st : string) (d : Qc)
    (data : gmap string pyval) (c : Z) :
  Z.abs c < float_overflow ->
  ∃ d' : Qc,
    update_logic_with_analysis (mkController st (Qc_of_Z 5) (Qc_of_Z 20) d)
      (<["vehicle_count" := PyInt c]> data)
    = Some (mkController st (Qc_of_Z 5) (Qc_of_Z 20) d')
    ∧ (c ≤ 0 -> d' = Qc_of_Z 5)
    ∧ (0 ≤ c ≤ 30 -> d' = (Qc_of_Z 5 + Qc_of_Z c * half)%Qc)
    ∧ (30 ≤ c -> d' = Qc_of_Z 20).
Proof.
  intros Hrange. eexists. split.
  { rewrite (update_logic_with_count _ _ c) by (apply dict_get_insert || exact Hrange).
    reflexivity. }
  cbn [green_light_base_duration green_light_max_duration].
  rewrite (py_max_min_clamp _ _ _ five_le_twenty).
  assert ((Qc_of_Z 5 + Qc_of_Z 0 * half)%Qc = Qc_of_Z 5) as H0
    by (apply Qc_is_canon; reflexivity).
  assert ((Qc_of_Z 5 + Qc_of_Z 30 * half)%Qc = Qc_of_Z 20) as H30
    by (apply Qc_is_canon; reflexivity).
  unfold clamp. repeat split.
  - intros Hc. pose proof (calculated_duration_mono (Qc_of_Z 5) c 0 Hc) as Hm.
    rewrite H0 in Hm.
    destruct (decide _) as [_|Hlo]; [reflexivity|].
    destruct (decide _) as [Hhi|_].
    + exfalso. apply (Qclt_not_le _ _ Hhi).
      apply Qcle_trans with (Qc_of_Z 5); [exact Hm | exact five_le_twenty].
    + apply Qcle_antisym; [exact Hm | by apply Qcnot_lt_le].
  - intros [Hc0 Hc30].
    pose proof (calculated_duration_mono (Qc_of_Z 5) 0 c Hc0) as Hm0.
    pose proof (calculated_duration_mono (Qc_of_Z 5) c 30 Hc30) as Hm30.
    rewrite H0 in Hm0. rewrite H30 in Hm30.
    destruct (decide _) as [Hlo|_]; [by apply Qclt_not_le in Hlo|].
    destruct (decide _) as [Hhi|_]; [by apply Qclt_not_le in Hhi|].
    reflexivity.
  - intros Hc. pose proof (calculated_duration_mono (Qc_of_Z 5) 30 c Hc) as Hm.
    rewrite H30 in Hm.
    destruct (decide _) as [Hlo|_].
    + exfalso. apply (Qclt_not_le _ _ Hlo).
      apply Qcle_trans with (Qc_of_Z 20); [exact five_le_twenty | exact Hm].
    + destruct (decide _) as [_|Hhi]; [reflexivity|].
      apply Qcle_antisym; [by apply Qcnot_lt_le | exact Hm].
Qed.

Lemma update_logic_thresholds_witness :
  ∃ d' : Qc,
    update_logic_with_analysis init (<["vehicle_count" := PyInt 31]> ∅)
    = Some (mkController "red" (Qc_of_Z 5) (Qc_of_Z 20) d')
    ∧ d' = Qc_of_Z 20.
Proof.
  destruct (update_logic_thresholds "red" (Qc_of_Z 5) ∅ 31) as (d' & Hup & _ & _ & H30).
  { reflexivity. }
  exists d'. split; [exact Hup|]. apply H30. lia.
Defined.

(** X3. The last update wins: what an update stores does not depend on what
    earlier updates stored, so an update after another gives what it would
    have given alone, and repeating an update changes nothing. *)
Theorem update_logic_last_wins (self s1 : TrafficLightController)
    (data1 data2 : gmap string pyval) :
  update_logic_with_analysis self data1 = Some s1 ->
  update_logic_with_analysis s1 data2 = update_logic_with_analysis self data2
  ∧ update_logic_with_analysis s1 data1 = Some s1.
Proof.
  unfold update_logic_with_analysis.
  destruct (as_number (dict_get data1 _ _)) as [c1|]; [|discriminate].
  destruct (int_to_float c1) as [count1|]; [|discriminate].
  intros [= <-]. cbn [state green_light_base_duration green_light_max_duration].
  split; reflexivity.
Qed.

Lemma update_logic_last_wins_witness :
  update_logic_with_analysis
    (mkController "red" (Qc_of_Z 5) (Qc_of_Z 20) (Qc_of_Z 20))
    (<["vehicle_count" := PyInt 0]> ∅)
  = update_logic_with_analysis init (<["vehicle_count" := PyInt 0]> ∅).
Proof.
  apply (update_logic_last_wins init _ (<["vehicle_count" := PyInt 40]> ∅)).
  reflexivity.
Defined.

Lemma true_flags_of_flags (r y g : bool) :
  true_flags (<["red" := PyBool r]> (<["yellow" := PyBool y]>
                (<["green" := PyBool g]> ∅)))
  = (Nat.b2n r + Nat.b2n y + Nat.b2n g)%nat.
Proof. destruct r, y, g; reflexivity. Qed.

(** X4. Whatever string the state attribute holds, [get_state] returns a
    dictionary of three flags of which at most one is [True]; exactly one is
    when the state is red, yellow or green, and none otherwise. *)
Theorem get_state_at_most_one_true (self : TrafficLightController) :
  size (get_state self) = 3%nat
  ∧ (true_flags (get_state self) ≤ 1)%nat
  ∧ (true_flags (get_state self) = 1%nat
     <-> state self = "red" ∨ state self = "yellow" ∨ state self = "green").
Proof.
  unfold get_state. rewrite true_flags_of_flags.
  split; [reflexivity|].
  destruct (String.eqb_spec (state self) "red") as [Hr|Hr];
    destruct (String.eqb_spec (state self) "yellow") as [Hy|Hy];
    destruct (String.eqb_spec (state self) "green") as [Hg|Hg];
    try congruence; cbn; (split; [lia|]); split; try lia; try tauto.
Qed.

(** X5. Setting a state and reading it back: after [_set_state] with one of the
    three colours the snapshot has that colour [True] and exactly one flag
    set, the durations are as before, and setting the same state again
    changes nothing. *)
Theorem set_state_then_get_state (self : TrafficLightController) (colour : string) :
  colour = "red" ∨ colour = "yellow" ∨ colour = "green" ->
  get_state (_set_state self colour) !! colour = Some (PyBool true)
  ∧ true_flags (get_state (_set_state self colour)) = 1%nat
  ∧ current_green_duration (_set_state self colour) = current_green_duration self
  ∧ _set_state (_set_state self colour) colour = _set_state self colour.
Proof.
  intros Hcolour.
  assert (state (_set_state self colour) = colour) as Hst by apply set_state_state.
  split; [|split; [|split]].
  - unfold get_state. rewrite Hst.
    destruct Hcolour as [-> | [-> | ->]]; reflexivity.
  - unfold get_state. rewrite true_flags_of_flags, Hst.
    destruct Hcolour as [-> | [-> | ->]]; reflexivity.
  - apply set_state_duration.
  - unfold _set_state at 1. rewrite Hst, String.eqb_refl. reflexivity.
Qed.

Lemma set_state_then_get_state_witness :
  get_state (_set_state init "green") !! "green" = Some (PyBool true).
Proof.
  apply (set_state_then_get_state init "green"). right. right. reflexivity.
Defined.

Lemma run_dynamic_cycle_durations (n : nat) :
  ∀ s : system,
    green_light_base_duration (controller (snd (_run_dynamic_cycle n s)))
    = green_light_base_duration (controller s)
    ∧ green_light_max_duration (controller (snd (_run_dynamic_cycle n s)))
      = green_light_max_duration (controller s)
    ∧ current_green_duration (controller (snd (_run_dynamic_cycle n s)))
      = current_green_duration (controller s).
Proof.
  induction n as [|n IH]; intros s; [done|].
  rewrite cycle_run_succ. cbn [snd].
  destruct (IH (snd (cycle_step s))) as (-> & -> & ->).
  destruct s as [self p]. unfold cycle_step. cbn [controller cycle].
  destruct p; cbn [snd controller]; auto;
    destruct (set_state_duration self "red") as (? & ? & ?);
    destruct (set_state_duration self "green") as (? & ? & ?);
    destruct (set_state_duration self "yellow") as (? & ? & ?); auto.
Qed.

(** X6. One round of the cycle. From any reachable state in which the thread is
    at the top of its loop, seven statements later it is at the top again,
    with the light yellow; it has written none of the three durations, and it
    has slept 15 seconds in red, the suggested duration in green and 3 in
    yellow, between 23 and 38 seconds in all. *)
Theorem cycle_round (s : system) :
  reachable s ->
  cycle s = L78_set_red ->
  cycle (snd (_run_dynamic_cycle 7 s)) = L78_set_red
  ∧ state (controller (snd (_run_dynamic_cycle 7 s))) = "yellow"
  ∧ green_light_base_duration (controller (snd (_run_dynamic_cycle 7 s)))
    = green_light_base_duration (controller s)
  ∧ green_light_max_duration (controller (snd (_run_dynamic_cycle 7 s)))
    = green_light_max_duration (controller s)
  ∧ current_green_duration (controller (snd (_run_dynamic_cycle 7 s)))
    = current_green_duration (controller s)
  ∧ slept (fst (_run_dynamic_cycle 7 s))
    = (Qc_of_Z 15 + current_green_duration (controller s) + Qc_of_Z 3)%Qc
  ∧ (Qc_of_Z 23 ≤ slept (fst (_run_dynamic_cycle 7 s)))%Qc
  ∧ (slept (fst (_run_dynamic_cycle 7 s)) ≤ Qc_of_Z 38)%Qc.
Proof.
  intros Hreach Hpc.
  apply reachable_duration_inv in Hreach as (_ & _ & Hlo & Hhi & _).
  destruct (run_dynamic_cycle_durations 7 s) as (Hb & Hm & Hd).
  destruct s as [self p]. cbn [cycle controller] in *. subst p.
  assert (slept (fst (_run_dynamic_cycle 7 (mkSystem self L78_set_red)))
          = (Qc_of_Z 15 + current_green_duration self + Qc_of_Z 3)%Qc) as Hslept.
  { cbn. rewrite !(proj1 (set_state_duration _ _)). ring. }
  split; [reflexivity|]. split; [cbn; apply set_state_state|].
  split; [exact Hb|]. split; [exact Hm|]. split; [exact Hd|].
  split; [exact Hslept|]. rewrite Hslept.
  replace (Qc_of_Z 23) with (Qc_of_Z 15 + Qc_of_Z 5 + Qc_of_Z 3)%Qc
    by (apply Qc_is_canon; reflexivity).
  replace (Qc_of_Z 38) with (Qc_of_Z 15 + Qc_of_Z 20 + Qc_of_Z 3)%Qc
    by (apply Qc_is_canon; reflexivity).
  split; apply Qcplus_le_mono_r, Qcplus_le_mono_l; assumption.
Qed.

Lemma cycle_round_witness :
  slept (fst (_run_dynamic_cycle 7 init_system))
  = (Qc_of_Z 15 + Qc_of_Z 5 + Qc_of_Z 3)%Qc.
Proof.
  apply (cycle_round init_system reachable_init eq_refl).
Defined.

End controller_more.

(** ** More on frame analysis *)

Section frame_analysis_more.
Import analyzer.

Lemma omap_vehicle_label_cons (names : gmap Z string) (row : detection)
    (rest : list detection) :
  omap (vehicle_label names) (row :: rest)
  = match vehicle_label names row with
    | Some label_name => label_name :: omap (vehicle_label names) rest
    | None => omap (vehicle_label names) rest
    end.
Proof. reflexivity. Qed.

(** What the loop has drawn when it returns, places apart: a rectangle and
    the capitalized name for each vehicle row, over what the frame held, and
    nothing else of the frame changed. *)
Lemma detection_loop_draws (names : gmap Z string) (x_shape y_shape : Z)
    (todo : list detection) :
  ∀ (vehicle_count n : Z) (f f' : frame),
    detection_loop names x_shape y_shape todo vehicle_count f = Some (n, f') ->
    rows f' = rows f ∧ cols f' = cols f ∧ picture f' = picture f
    ∧ drawn_texts f'
      = rev (capitalize <$> omap (vehicle_label names) todo) ++ drawn_texts f
    ∧ drawn_rectangles f'
      = (drawn_rectangles f + length (omap (vehicle_label names) todo))%nat
    ∧ length (drawn f')
      = (length (drawn f) + 2 * length (omap (vehicle_label names) todo))%nat.
Proof.
  induction todo as [|row rest IH]; intros vehicle_count n f f'; cbn [detection_loop].
  - intros [= _ <-]. cbn. repeat split; lia.
  - rewrite (omap_vehicle_label_cons names row rest).
    pose proof (eq_refl : vehicle_label names row = vehicle_label names row) as Hl.
    unfold vehicle_label at 2 in Hl.
    destruct (names !! py_int (class_id row)) as [label_name|]; [|discriminate].
    destruct (bool_decide (label_name ∈ vehicle_classes)); rewrite Hl; intros Hloop;
      apply IH in Hloop as (Hr & Hc & Hp & Htexts & Hrects & Hlen).
    + rewrite Hr, Hc, Hp, Htexts, Hrects, Hlen. unfold drawn_texts, drawn_rectangles.
      cbn [rows cols picture drawn draw omap list_omap drawn_text fmap list_fmap rev].
      rewrite filter_cons_False by discriminate.
      rewrite filter_cons_True by reflexivity.
      cbn [length].
      split; [reflexivity|]. split; [reflexivity|]. split; [reflexivity|].
      split; [by rewrite <- (assoc_L (++))|]. split; lia.
    + rewrite Hr, Hc, Hp, Htexts, Hrects, Hlen.
      split; [reflexivity|]. split; [reflexivity|]. split; [reflexivity|].
      split; [reflexivity|]. split; reflexivity.
Qed.

Lemma vehicle_labels_length (r : results) :
  length (vehicle_labels r) = length (vehicle_detections r).
Proof.
  unfold vehicle_labels, vehicle_detections.
  induction (xyxyn0 r) as [|row rest IH]; [reflexivity|].
  rewrite omap_vehicle_label_cons.
  pose proof (eq_refl : vehicle_label (names r) row = vehicle_label (names r) row) as Hl.
  unfold vehicle_label at 2 in Hl.
  pose proof (eq_refl : is_vehicle (names r) row = is_vehicle (names r) row) as Hv.
  unfold is_vehicle at 2 in Hv.
  destruct (names r !! py_int (class_id row)) as [label_name|];
    [destruct (bool_decide (label_name ∈ vehicle_classes))|]; rewrite Hl.
  - rewrite filter_cons_True by exact Hv. cbn [length]. by rewrite IH.
  - rewrite filter_cons_False by congruence. exact IH.
  - rewrite filter_cons_False by congruence. exact IH.
Qed.

(** The loop raises when some row has a class id without a name. *)
Lemma detection_loop_raises (names : gmap Z string) (x_shape y_shape : Z)
    (todo : list detection) :
  ∀ (vehicle_count : Z) (f : frame),
    Exists (λ row, names !! py_int (class_id row) = None) todo ->
    detection_loop names x_shape y_shape todo vehicle_count f = None.
Proof.
  induction todo as [|row rest IH]; intros vehicle_count f Hex; cbn [detection_loop].
  - by apply Exists_nil in Hex.
  - apply Exists_cons in Hex as [-> | Hex]; [reflexivity|].
    destruct (names !! py_int (class_id row)) as [label_name|]; [|reflexivity].
    destruct (bool_decide _); by apply IH.
Qed.

(** X7. With a loaded model whose reported class ids all have names,
    [process_frame] returns the frame it was given with, drawn over it, one
    rectangle and one text per vehicle detection and nothing for the other
    detections; the texts are the capitalized class names, in the order of
    the detections; the picture and its dimensions are as before, and a frame
    without vehicle detections comes back as it was. (Where on the frame the
    drawings go is not stated.) *)
Theorem process_frame_annotates
    (self : VideoAnalyzer) (detect : frame -> results) (f : frame) :
  model self = Some detect ->
  Forall (λ row, is_Some (names (detect f) !! py_int (class_id row)))
         (xyxyn0 (detect f)) ->
  ∃ (self' : VideoAnalyzer) (f' : frame) (data : gmap string pyval),
    process_frame self f = Some (self', f', data)
    ∧ rows f' = rows f ∧ cols f' = cols f ∧ picture f' = picture f
    ∧ drawn_texts f'
      = rev (capitalize <$> vehicle_labels (detect f)) ++ drawn_texts f
    ∧ drawn_rectangles f'
      = (drawn_rectangles f + length (vehicle_detections (detect f)))%nat
    ∧ length (drawn f')
      = (length (drawn f) + 2 * length (vehicle_detections (detect f)))%nat
    ∧ (vehicle_detections (detect f) = [] -> f' = f).
Proof.
  intros Hmodel Hnamed. unfold process_frame. rewrite Hmodel.
  destruct (detection_loop_counts (names (detect f)) (cols f) (rows f)
              (xyxyn0 (detect f)) 0 f Hnamed) as [f' Hloop].
  rewrite Hloop. eexists _, f', _. split; [reflexivity|].
  destruct (detection_loop_draws _ _ _ _ _ _ _ _ Hloop)
    as (Hr & Hc & Hp & Htexts & Hrects & Hlen).
  fold (vehicle_labels (detect f)) in Htexts, Hrects, Hlen.
  rewrite vehicle_labels_length in Hrects, Hlen.
  repeat split; try assumption.
  intros Hnone. rewrite Hnone in Hlen. cbn [length] in Hlen.
  destruct f as [r c p dr], f' as [r' c' p' dr']. cbn in *. subst.
  f_equal. clear -Hlen Hloop.
  assert (∀ todo vc n (g g' : frame),
            detection_loop (names (detect (mkFrame r c p dr))) c r todo vc g
            = Some (n, g') ->
            ∃ more, drawn g' = more ++ drawn g) as Hgrows.
  { induction todo as [|row rest IH]; intros vc n g g'; cbn [detection_loop].
    - intros [= _ <-]. by exists [].
    - destruct (_ !! _) as [label_name|]; [|discriminate].
      destruct (bool_decide _); intros Hl; apply IH in Hl as [more ->].
      + eexists (more ++ [_; _]). by rewrite <- (assoc_L (++)).
      + by exists more. }
  apply Hgrows in Hloop as [more Hmore]. cbn in Hmore. subst dr'.
  rewrite length_app in Hlen. destruct more; [reflexivity | cbn in Hlen; lia].
Qed.

Lemma process_frame_annotates_witness :
  ∃ f' : frame,
    (snd ∘ fst) <$> process_frame (init "static/videos/traffic.mp4" 0%Qc (Some sample_model))
                      (sample_frame 0)
    = Some f'
    ∧ drawn_texts f' = ["Truck"; "Car"].
Proof.
  destruct (process_frame_annotates
              (init "static/videos/traffic.mp4" 0%Qc (Some sample_model))
              sample_model (sample_frame 0) eq_refl)
    as (self' & f' & data & Hproc & _ & _ & _ & Htexts & _).
  { repeat constructor; eexists; reflexivity. }
  exists f'. split; [by rewrite Hproc|].
  rewrite Htexts. vm_compute. reflexivity.
Defined.

(** X8. The class name of every detection is looked up before the test for
    a vehicle: when the loaded model reports, for the frame at the position
    of the source, a detection of whatever kind whose class id the table of
    names does not hold, [process_frame] raises, and the pass of
    [generate_frames] that reads the frame ends the generator with that
    exception, with no chunk for the frame or after it. *)
Theorem process_frame_raises_on_unnamed_class
    (video : list frame) (imencode : frame -> option string)
    (now : Qc) (later : list Qc) (w : pipeline)
    (detect : frame -> results) (f : frame) :
  model (self w) = Some detect ->
  video !! position w = Some f ->
  Exists (λ row, names (detect f) !! py_int (class_id row) = None)
         (xyxyn0 (detect f)) ->
  process_frame (self w) f = None
  ∧ loop video imencode (now :: later) w = ([], Raised).
Proof.
  intros Hmodel Hread Hex.
  assert (process_frame (self w) f = None) as Hraise.
  { unfold process_frame. rewrite Hmodel.
    by rewrite (detection_loop_raises _ _ _ _ 0 f Hex). }
  split; [exact Hraise|].
  cbn [loop]. unfold iteration. by rewrite Hread, Hraise.
Qed.

Lemma process_frame_raises_on_unnamed_class_witness :
  loop [sample_frame 0] sample_imencode [Qc_of_Z 1; Qc_of_Z 2]
    (start (init "static/videos/traffic.mp4" 0%Qc (Some sample_unnamed_model))
       traffic_light.init)
  = ([], Raised).
Proof.
  apply (process_frame_raises_on_unnamed_class [sample_frame 0] sample_imencode
           (Qc_of_Z 1) [Qc_of_Z 2]
           (start (init "static/videos/traffic.mp4" 0%Qc (Some sample_unnamed_model))
              traffic_light.init)
           sample_unnamed_model (sample_frame 0) eq_refl eq_refl).
  apply Exists_cons_tl, Exists_cons_hd. reflexivity.
Defined.

End frame_analysis_more.

(** ** Paths *)

Section paths.
Import posixpath.

Lemma append_cons (c : ascii) (a b : string) :
  String c a +:+ b = String c (a +:+ b).
Proof. reflexivity. Qed.

Lemma has_sep_append (a b : string) :
  has_sep (a +:+ b) = has_sep a || has_sep b.
Proof.
  induction a as [|c a IH]; [reflexivity|].
  rewrite append_cons. cbn [has_sep]. rewrite IH. by rewrite orb_assoc.
Qed.

Lemma basename_no_sep (p : string) : has_sep p = false -> basename p = p.
Proof.
  destruct p as [|c rest]; [reflexivity|]. cbn [has_sep basename].
  intros [Hc ->]%orb_false_elim. by rewrite Hc.
Qed.

Lemma basename_after_sep (a name : string) :
  has_sep name = false -> basename (a +:+ String sep name) = name.
Proof.
  intros Hname. induction a as [|c a IH].
  - change ("" +:+ String sep name) with (String sep name).
    cbn [basename]. by rewrite Hname.
  - rewrite append_cons. cbn [basename].
    rewrite has_sep_append. cbn [has_sep]. unfold sep at 1.
    rewrite orb_true_r. exact IH.
Qed.

Lemma endswith_refl (s : string) : endswith s s = true.
Proof. destruct s; cbn [endswith]; by rewrite String.eqb_refl. Qed.

Lemma endswith_append (a suffix : string) : endswith (a +:+ suffix) suffix = true.
Proof.
  induction a as [|c a IH]; [apply endswith_refl|].
  rewrite append_cons. cbn [endswith]. rewrite IH. apply orb_true_r.
Qed.

Lemma endswith_inv (s suffix : string) :
  endswith s suffix = true -> ∃ a : string, s = a +:+ suffix.
Proof.
  induction s as [|c s IH]; cbn [endswith].
  - rewrite orb_false_r. intros ->%String.eqb_eq. by exists "".
  - intros [->%String.eqb_eq | Hrest]%orb_true_elim.
    + by exists "".
    + destruct (IH Hrest) as [a ->]. by exists (String c a).
Qed.

Lemma startswith_sep (name : string) :
  has_sep name = false -> startswith name "/" = false.
Proof.
  destruct name as [|c rest]; [reflexivity|]. cbn [has_sep].
  intros [Hc _]%orb_false_elim. unfold startswith. cbn [String.prefix].
  destruct (ascii_dec "/" c) as [<-|]; [discriminate | reflexivity].
Qed.

(** [basename] undoes [join]: a name without a separator joined to any
    directory is found again. *)
Lemma basename_join (dir name : string) :
  has_sep name = false -> basename (join dir name) = name.
Proof.
  intros Hname. unfold join. rewrite (startswith_sep name Hname).
  destruct (String.eqb_spec dir "") as [->|_]; cbn [orb].
  - by apply basename_no_sep.
  - destruct (endswith dir "/") eqn:Hends.
    + apply endswith_inv in Hends as [a ->].
      replace ((a +:+ "/") +:+ name) with (a +:+ String sep name).
      * by apply basename_after_sep.
      * clear. induction a as [|c a IH]; [reflexivity|].
        rewrite !append_cons. by rewrite IH.
    + by apply (basename_after_sep dir name).
Qed.

Lemma join_relative (name : string) :
  has_sep name = false ->
  join "captured_frames" name = "captured_frames/" +:+ name.
Proof. intros Hname. unfold join. by rewrite (startswith_sep name Hname). Qed.

End paths.

(** ** The captured-frames route *)

Section captured_frames.
Import posixpath app.

Lemma insert_by_mtime_perm (file : string * Qc) (sorted : list (string * Qc)) :
  insert_by_mtime file sorted ≡ₚ file :: sorted.
Proof.
  induction sorted as [|other rest IH]; [reflexivity|]. cbn [insert_by_mtime].
  destruct (decide _); [|reflexivity].
  rewrite IH. apply Permutation_swap.
Qed.

Lemma sort_by_mtime_perm (files : list (string * Qc)) :
  sort_by_mtime files ≡ₚ files.
Proof.
  induction files as [|file rest IH]; [reflexivity|].
  cbn [sort_by_mtime foldr]. rewrite insert_by_mtime_perm.
  by apply Permutation_skip.
Qed.

Lemma insert_by_mtime_sorted (file : string * Qc) (sorted : list (string * Qc)) :
  StronglySorted no_older sorted ->
  StronglySorted no_older (insert_by_mtime file sorted).
Proof.
  induction sorted as [|other rest IH]; intros Hsorted; cbn [insert_by_mtime].
  - repeat constructor.
  - apply StronglySorted_cons in Hsorted as [Hall Hrest].
    destruct (decide (snd file < snd other)%Qc) as [Hlt|Hge].
    + apply StronglySorted_cons. split; [|by apply IH].
      rewrite insert_by_mtime_perm. constructor; [|exact Hall].
      by apply Qclt_le_weak.
    + apply Qcnot_lt_le in Hge.
      apply StronglySorted_cons. split; [|by apply StronglySorted_cons].
      constructor; [exact Hge|].
      eapply Forall_impl; [exact Hall|]. intros b Hb. unfold no_older in *.
      by apply Qcle_trans with (snd other).
Qed.

Lemma sort_by_mtime_sorted (files : list (string * Qc)) :
  StronglySorted no_older (sort_by_mtime files).
Proof.
  induction files as [|file rest IH]; [constructor|].
  by apply insert_by_mtime_sorted.
Qed.

Lemma sorted_newest_first (files : list (string * Qc)) :
  StronglySorted no_older files -> newest_first files.
Proof.
  induction 1 as [|a rest _ IH Hall]; intros i j x y Hij Hi Hj; [done|].
  destruct j as [|j]; [lia|]. cbn in Hj.
  destruct i as [|i]; cbn in Hi.
  - injection Hi as <-. rewrite Forall_forall in Hall.
    apply Hall. by eapply list_elem_of_lookup_2.
  - apply (IH i j); [lia | done | done].
Qed.

(** Sorting looks at the times only: it commutes with a change of the
    paths. *)
Lemma sort_by_mtime_fmap (g : string -> string) (files : list (string * Qc)) :
  sort_by_mtime ((λ e, (g (fst e), snd e)) <$> files)
  = (λ e, (g (fst e), snd e)) <$> sort_by_mtime files.
Proof.
  induction files as [|file rest IH]; [reflexivity|].
  cbn [fmap list_fmap sort_by_mtime foldr].
  change (foldr insert_by_mtime [] ?l) with (sort_by_mtime l).
  change (list_fmap _ _ ?f rest) with (f <$> rest). rewrite IH.
  generalize (sort_by_mtime rest). intros sorted.
  induction sorted as [|other more IHs]; [reflexivity|].
  cbn [fmap list_fmap insert_by_mtime snd].
  destruct (decide _); cbn [fmap list_fmap]; [|reflexivity].
  f_equal. exact IHs.
Qed.

(** X9. The route returns at most twelve paths: as many as the directory holds
    entries that the pattern lists, up to twelve, and none for a directory
    that is empty, missing or without such entries. *)
Theorem get_captured_frames_length (dir : listing) :
  length (get_captured_frames dir)
  = (12 `min` length (filter (λ entry, glob_star_jpg (fst entry) = true) dir))%nat
  ∧ (length (get_captured_frames dir) ≤ 12)%nat
  ∧ (filter (λ entry, glob_star_jpg (fst entry) = true) dir = [] ->
     get_captured_frames dir = []).
Proof.
  unfold get_captured_frames, latest_files, glob_image_files.
  rewrite length_fmap, length_take.
  rewrite (Permutation_length (sort_by_mtime_perm _)), length_fmap.
  split; [reflexivity|]. split; [lia|].
  by intros ->.
Qed.

(** X10. The files the route keeps are ordered from the newest to the oldest,
    and they are the newest: together with the files it leaves out they make
    up what the pattern lists, and no file left out is newer than a file
    kept. *)
Theorem latest_files_newest_first (dir : listing) :
  newest_first (latest_files dir)
  ∧ ∃ left_out : list (string * Qc),
      latest_files dir ++ left_out ≡ₚ glob_image_files dir
      ∧ ∀ kept other : string * Qc,
          kept ∈ latest_files dir -> other ∈ left_out ->
          (snd other ≤ snd kept)%Qc.
Proof.
  pose proof (sort_by_mtime_sorted (glob_image_files dir)) as Hsorted.
  rewrite <- (take_drop 12 (sort_by_mtime (glob_image_files dir))) in Hsorted.
  split.
  - apply sorted_newest_first. by eapply StronglySorted_app_1_l.
  - exists (drop 12 (sort_by_mtime (glob_image_files dir))). split.
    + unfold latest_files. rewrite take_drop. apply sort_by_mtime_perm.
    + intros kept other Hkept Hother.
      exact (StronglySorted_app_1_elem_of _ _ _ _ _ Hsorted Hkept Hother).
Qed.

(** X11. The paths the route returns. When no entry name holds a separator, as
    for the entries of a directory, taking the base name undoes the join with
    the capture directory: the result is ["captured_frames/"] followed by the
    entry name, for the twelve newest entries that the pattern lists. *)
Theorem get_captured_frames_paths (dir : listing) :
  Forall (λ entry, has_sep (fst entry) = false) dir ->
  get_captured_frames dir
  = (λ entry, "captured_frames/" +:+ fst entry)
      <$> take 12 (sort_by_mtime
                     (filter (λ entry, glob_star_jpg (fst entry) = true) dir)).
Proof.
  intros Hnames. unfold get_captured_frames, latest_files, glob_image_files.
  rewrite (sort_by_mtime_fmap (join CAPTURE_DIR)), <- fmap_take, <- list_fmap_compose.
  apply Forall_fmap_ext, Forall_forall. intros entry Hentry.
  apply subseteq_take in Hentry.
  rewrite sort_by_mtime_perm in Hentry.
  apply list_elem_of_filter in Hentry as [_ Hentry].
  rewrite Forall_forall in Hnames. specialize (Hnames entry Hentry).
  cbn. rewrite (basename_join _ _ Hnames). by apply join_relative.
Qed.

Lemma get_captured_frames_paths_witness :
  get_captured_frames
    [("capture_20240101_120000_000001.jpg", Qc_of_Z 10);
     ("notes.txt", Qc_of_Z 30);
     ("capture_20240101_120005_000002.jpg", Qc_of_Z 20)]
  = ["captured_frames/capture_20240101_120005_000002.jpg";
     "captured_frames/capture_20240101_120000_000001.jpg"].
Proof.
  rewrite (get_captured_frames_paths
             [("capture_20240101_120000_000001.jpg", Qc_of_Z 10);
              ("notes.txt", Qc_of_Z 30);
              ("capture_20240101_120005_000002.jpg", Qc_of_Z 20)]).
  - vm_compute. reflexivity.
  - repeat constructor.
Defined.

Lemma NoDup_fmap_elem_inj {A B : Type} (f : A -> B) (l : list A) (x y : A) :
  NoDup (f <$> l) -> x ∈ l -> y ∈ l -> f x = f y -> x = y.
Proof.
  induction l as [|a l IH]; intros Hnd Hx Hy Hf; [by apply elem_of_nil in Hx|].
  cbn in Hnd. apply NoDup_cons in Hnd as [Hnotin Hnd].
  apply elem_of_cons in Hx as [->|Hx]; apply elem_of_cons in Hy as [->|Hy].
  - reflexivity.
  - exfalso. apply Hnotin. rewrite Hf. by apply list_elem_of_fmap_2.
  - exfalso. apply Hnotin. rewrite <- Hf. by apply list_elem_of_fmap_2.
  - by apply IH.
Qed.

(** X19. The order in which the system lists the directory does not matter
    when the files that the pattern lists have different modification times:
    two listings of the same entries give the same answer. *)
Theorem get_captured_frames_listing_order (dir dir' : listing) :
  dir ≡ₚ dir' ->
  NoDup (snd <$> glob_image_files dir) ->
  get_captured_frames dir = get_captured_frames dir'.
Proof.
  intros Hperm Hnodup.
  assert (glob_image_files dir ≡ₚ glob_image_files dir') as Hfiles.
  { unfold glob_image_files. by rewrite Hperm. }
  unfold get_captured_frames, latest_files. do 2 f_equal.
  apply (StronglySorted_unique_strong no_older);
    [| apply sort_by_mtime_sorted | apply sort_by_mtime_sorted
     | by rewrite !sort_by_mtime_perm].
  intros a b Ha Hb Hab Hba.
  rewrite sort_by_mtime_perm in Ha. rewrite sort_by_mtime_perm, <- Hfiles in Hb.
  apply (NoDup_fmap_elem_inj snd (glob_image_files dir)); [done | done | done |].
  by apply Qcle_antisym.
Qed.

Lemma get_captured_frames_listing_order_witness :
  get_captured_frames
    [("a.jpg", Qc_of_Z 1); ("notes.txt", Qc_of_Z 1); ("b.jpg", Qc_of_Z 2)]
  = get_captured_frames
      [("b.jpg", Qc_of_Z 2); ("a.jpg", Qc_of_Z 1); ("notes.txt", Qc_of_Z 1)].
Proof.
  apply (get_captured_frames_listing_order
           [("a.jpg", Qc_of_Z 1); ("notes.txt", Qc_of_Z 1); ("b.jpg", Qc_of_Z 2)]
           [("b.jpg", Qc_of_Z 2); ("a.jpg", Qc_of_Z 1); ("notes.txt", Qc_of_Z 1)]).
  - eapply perm_trans; [apply perm_skip, perm_swap | apply perm_swap].
  - apply (bool_decide_unpack _). vm_compute. reflexivity.
Defined.

End captured_frames.

(** ** Capture files *)

Section capture_files.
Import posixpath analyzer app.

Lemma string_length_append (a b : string) :
  String.length (a +:+ b) = (String.length a + String.length b)%nat.
Proof.
  induction a as [|c a IH]; [reflexivity|].
  rewrite append_cons. cbn [String.length]. by rewrite IH.
Qed.

(** Two concatenations whose first parts are equally long are equal only
    when their parts are. *)
Lemma append_inj_length (a1 a2 b1 b2 : string) :
  String.length a1 = String.length a2 ->
  a1 +:+ b1 = a2 +:+ b2 -> a1 = a2 ∧ b1 = b2.
Proof.
  revert a2. induction a1 as [|c1 a1 IH]; intros [|c2 a2] Hlen; try discriminate.
  - auto.
  - rewrite !append_cons. intros [= -> Hrest].
    injection Hlen as Hlen. destruct (IH a2 Hlen Hrest) as [-> ->]. auto.
Qed.

Lemma append_inj_r (a1 a2 b : string) : a1 +:+ b = a2 +:+ b -> a1 = a2.
Proof.
  intros Heq. apply (append_inj_length a1 a2 b b); [|exact Heq].
  apply (f_equal String.length) in Heq. rewrite !string_length_append in Heq. lia.
Qed.

Lemma digits_length (width : nat) (n : N) : String.length (digits width n) = width.
Proof.
  revert n. induction width as [|w IH]; intros n; [reflexivity|].
  cbn [digits]. rewrite string_length_append, IH. cbn. lia.
Qed.

Lemma digit_inj (d1 d2 : N) :
  (d1 < 10)%N -> (d2 < 10)%N -> digit d1 = digit d2 -> d1 = d2.
Proof.
  intros H1 H2 Heq. unfold digit in Heq.
  apply (f_equal N_of_ascii) in Heq.
  rewrite !N_ascii_embedding in Heq by lia. lia.
Qed.

Lemma digits_inj (width : nat) :
  ∀ n1 n2 : N,
    (n1 < 10 ^ N.of_nat width)%N -> (n2 < 10 ^ N.of_nat width)%N ->
    digits width n1 = digits width n2 -> n1 = n2.
Proof.
  induction width as [|w IH]; intros n1 n2 H1 H2.
  { cbn in H1, H2. lia. }
  cbn [digits]. intros Heq.
  apply append_inj_length in Heq as [Hhigh Hlow]; [|by rewrite !digits_length].
  assert (digit (n1 mod 10)%N = digit (n2 mod 10)%N) as Hdigit by congruence.
  apply digit_inj in Hdigit; [|by apply N.mod_lt..].
  rewrite Nat2N.inj_succ, N.pow_succ_r' in H1, H2.
  apply IH in Hhigh.
  - rewrite (N.div_mod n1 10), (N.div_mod n2 10) by lia. lia.
  - apply N.Div0.div_lt_upper_bound. lia.
  - apply N.Div0.div_lt_upper_bound. lia.
Qed.

Lemma digit_no_sep (d : N) : (d < 10)%N -> Ascii.eqb (digit d) sep = false.
Proof.
  intros Hd.
  assert (d = 0 ∨ d = 1 ∨ d = 2 ∨ d = 3 ∨ d = 4 ∨ d = 5 ∨ d = 6 ∨ d = 7
          ∨ d = 8 ∨ d = 9)%N as Hcases by lia.
  repeat (destruct Hcases as [->|Hcases]; [reflexivity|]). by subst.
Qed.

Lemma digits_no_sep (width : nat) (n : N) : has_sep (digits width n) = false.
Proof.
  revert n. induction width as [|w IH]; intros n; [reflexivity|].
  cbn [digits]. rewrite has_sep_append, IH. cbn [has_sep orb].
  rewrite digit_no_sep by (by apply N.mod_lt). reflexivity.
Qed.

Lemma strftime_no_sep (dt : datetime) : has_sep (strftime dt) = false.
Proof.
  unfold strftime. rewrite !has_sep_append, !digits_no_sep. reflexivity.
Qed.

Lemma capture_filename_no_sep (timestamp : string) :
  has_sep timestamp = false -> has_sep (capture_filename timestamp) = false.
Proof.
  intros Hts. unfold capture_filename. rewrite !has_sep_append, Hts. reflexivity.
Qed.

Lemma capture_filename_listed (timestamp : string) :
  glob_star_jpg (capture_filename timestamp) = true.
Proof.
  unfold glob_star_jpg, capture_filename.
  replace ("capture_" +:+ timestamp +:+ ".jpg")
    with (("capture_" +:+ timestamp) +:+ ".jpg") by reflexivity.
  rewrite endswith_append. reflexivity.
Qed.

Lemma capture_filename_inj (ts1 ts2 : string) :
  capture_filename ts1 = capture_filename ts2 -> ts1 = ts2.
Proof.
  unfold capture_filename. intros Heq.
  apply (inj (String.append "capture_")) in Heq.
  by apply append_inj_r in Heq.
Qed.

Lemma strftime_inj (dt1 dt2 : datetime) :
  valid_datetime dt1 -> valid_datetime dt2 ->
  strftime dt1 = strftime dt2 -> dt1 = dt2.
Proof.
  intros (Hy1 & Hm1 & Hd1 & Hh1 & Hmi1 & Hs1 & Hu1)
         (Hy2 & Hm2 & Hd2 & Hh2 & Hmi2 & Hs2 & Hu2).
  unfold strftime. intros Heq.
  apply append_inj_length in Heq as [Hyear Heq]; [|by rewrite !digits_length].
  apply append_inj_length in Heq as [Hmonth Heq]; [|by rewrite !digits_length].
  apply append_inj_length in Heq as [Hday Heq]; [|by rewrite !digits_length].
  apply (append_inj_length "_" "_") in Heq as [_ Heq]; [|reflexivity].
  apply append_inj_length in Heq as [Hhour Heq]; [|by rewrite !digits_length].
  apply append_inj_length in Heq as [Hminute Heq]; [|by rewrite !digits_length].
  apply append_inj_length in Heq as [Hsecond Heq]; [|by rewrite !digits_length].
  apply (append_inj_length "_" "_") in Heq as [_ Hmicro]; [|reflexivity].
  apply digits_inj in Hyear; [|cbn; lia..].
  apply digits_inj in Hmonth; [|cbn; lia..].
  apply digits_inj in Hday; [|cbn; lia..].
  apply digits_inj in Hhour; [|cbn; lia..].
  apply digits_inj in Hminute; [|cbn; lia..].
  apply digits_inj in Hsecond; [|cbn; lia..].
  apply digits_inj in Hmicro; [|cbn; lia..].
  destruct dt1, dt2. cbn in *. congruence.
Qed.

(** X12. Captures taken at different times go to different files: the path that
    [_save_frame] writes determines the timestamp, so no capture overwrites
    another one. The timestamp is 22 characters long and holds no path
    separator. *)
Theorem capture_files_distinct (self : VideoAnalyzer) (dt1 dt2 : datetime) :
  valid_datetime dt1 -> valid_datetime dt2 ->
  String.length (strftime dt1) = 22%nat
  ∧ has_sep (strftime dt1) = false
  ∧ (capture_filepath self (strftime dt1) = capture_filepath self (strftime dt2) ->
     dt1 = dt2).
Proof.
  intros Hv1 Hv2. split; [|split].
  - unfold strftime. rewrite !string_length_append, !digits_length. reflexivity.
  - apply strftime_no_sep.
  - unfold capture_filepath. intros Heq.
    apply (f_equal basename) in Heq.
    rewrite !basename_join in Heq
      by (apply capture_filename_no_sep, strftime_no_sep).
    by apply capture_filename_inj, strftime_inj in Heq.
Qed.

Lemma capture_files_distinct_witness :
  String.length (strftime (mkDatetime 2024 1 1 12 0 5 250000)) = 22%nat.
Proof.
  apply (capture_files_distinct (init "static/videos/traffic.mp4" 0%Qc None)
           (mkDatetime 2024 1 1 12 0 5 250000) (mkDatetime 2024 1 1 12 0 10 0)).
  - unfold valid_datetime. cbn. lia.
  - unfold valid_datetime. cbn. lia.
Defined.

(** The timestamp of a capture, as the file name shows it. *)
Example strftime_sample :
  capture_filepath (init "static/videos/traffic.mp4" 0%Qc None)
    (strftime (mkDatetime 2024 1 1 12 0 5 250000))
  = "static/captured_frames/capture_20240101_120005_250000.jpg".
Proof. vm_compute. reflexivity. Qed.

Lemma relative_path_of_entry (name : string) :
  has_sep name = false ->
  join "captured_frames" (basename (join CAPTURE_DIR name))
  = "captured_frames/" +:+ name.
Proof. intros Hname. rewrite (basename_join _ _ Hname). by apply join_relative. Qed.

(** X13. What [_save_frame] writes, the route finds. The analyzer writes into the
    directory the route reads; the pattern lists every capture file, and the
    route returns it under ["captured_frames/"] whenever the directory holds
    at most twelve entries that the pattern lists. *)
Theorem saved_capture_is_listed (dir : listing) (dt : datetime) (mtime : Qc) :
  (capture_filename (strftime dt), mtime) ∈ dir ->
  (length (filter (λ entry, glob_star_jpg (fst entry) = true) dir) ≤ 12)%nat ->
  (∀ (path : string) (now : Qc) (loaded : option (frame -> results)),
     capture_filepath (init path now loaded) (strftime dt)
     = join CAPTURE_DIR (capture_filename (strftime dt)))
  ∧ glob_star_jpg (capture_filename (strftime dt)) = true
  ∧ "captured_frames/" +:+ capture_filename (strftime dt) ∈ get_captured_frames dir.
Proof.
  intros Hin Hfew. split; [reflexivity|].
  split; [apply capture_filename_listed|].
  rewrite <- (relative_path_of_entry (capture_filename (strftime dt)))
    by apply capture_filename_no_sep, strftime_no_sep.
  unfold get_captured_frames.
  apply (list_elem_of_fmap_2' _ _
           (join CAPTURE_DIR (capture_filename (strftime dt)), mtime));
    [|reflexivity].
  unfold latest_files.
  rewrite take_ge
    by (unfold glob_image_files;
        by rewrite (Permutation_length (sort_by_mtime_perm _)), length_fmap).
  rewrite sort_by_mtime_perm. unfold glob_image_files.
  apply (list_elem_of_fmap_2' _ _ (capture_filename (strftime dt), mtime));
    [|reflexivity].
  apply list_elem_of_filter.
  split; [apply capture_filename_listed | exact Hin].
Qed.

Lemma saved_capture_is_listed_witness :
  "captured_frames/capture_20240101_120005_250000.jpg"
  ∈ get_captured_frames
      [("notes.txt", Qc_of_Z 3);
       (capture_filename (strftime (mkDatetime 2024 1 1 12 0 5 250000)), Qc_of_Z 7)].
Proof.
  apply (saved_capture_is_listed
           [("notes.txt", Qc_of_Z 3);
            (capture_filename (strftime (mkDatetime 2024 1 1 12 0 5 250000)), Qc_of_Z 7)]
           (mkDatetime 2024 1 1 12 0 5 250000) (Qc_of_Z 7)).
  - apply list_elem_of_further, list_elem_of_here.
  - vm_compute. lia.
Defined.

(** Fourteen captures, a note and a hidden file: the route returns the
    twelve newest captures, the newest first. *)
Example get_captured_frames_sample :
  length (get_captured_frames sample_dir) = 12%nat
  ∧ head (get_captured_frames sample_dir)
    = Some "captured_frames/capture_20240101_120014_000000.jpg"
  ∧ last (get_captured_frames sample_dir)
    = Some "captured_frames/capture_20240101_120003_000000.jpg".
Proof. vm_compute. repeat split. Qed.

End capture_files.

(** ** More on the pipeline *)

Section pipeline_more.
Import analyzer.

(** The two ways a call of [process_frame] returns. *)
Lemma process_frame_cases (a a' : VideoAnalyzer) (f f' : frame)
    (d : gmap string pyval) :
  process_frame a f = Some (a', f', d) ->
  (model a = None ∧ a' = a ∧ f' = f ∧ d = analysis 0 "Model not loaded")
  ∨ (∃ n : Z, is_Some (model a) ∧ 0 ≤ n ∧ d = analysis n "Processing"
              ∧ a' = set_latest_analysis_data a d).
Proof.
  unfold process_frame. destruct (model a) as [detect|].
  - destruct (detection_loop _ _ _ _ _ _) as [[n f1]|] eqn:Hloop; [|discriminate].
    intros [= <- <- <-]. right. exists n.
    apply detection_loop_result in Hloop. eauto.
  - intros [= <- <- <-]. by left.
Qed.

Lemma processed_model_only (a a' : VideoAnalyzer) (f : frame) :
  model a = model a' -> processed a f = processed a' f.
Proof.
  unfold processed, process_frame. intros <-.
  destruct (model a) as [detect|]; [|reflexivity].
  by destruct (detection_loop _ _ _ _ _ _) as [[n f1]|].
Qed.

Lemma update_logic_on_analysis (c c' : traffic_light.TrafficLightController)
    (n : Z) (status : string) :
  traffic_light.green_light_base_duration c = Qc_of_Z 5 ->
  traffic_light.green_light_max_duration c = Qc_of_Z 20 ->
  traffic_light.update_logic_with_analysis c (analysis n status) = Some c' ->
  traffic_light.green_light_base_duration c' = Qc_of_Z 5
  ∧ traffic_light.green_light_max_duration c' = Qc_of_Z 20
  ∧ traffic_light.current_green_duration c'
    = clamp (Qc_of_Z 5 + Qc_of_Z n * half)%Qc (Qc_of_Z 5) (Qc_of_Z 20).
Proof.
  intros Hb Hm Hup.
  apply update_logic_Some_inv in Hup as (n' & Hn' & _ & ->).
  unfold dict_get in Hn'. rewrite analysis_vehicle_count in Hn'.
  injection Hn' as <-. cbn. rewrite Hb, Hm. repeat split.
  apply py_max_min_clamp, five_le_twenty.
Qed.

Section with_file.

Variable video : list frame.
Variable imencode : frame -> option string.

(** The part of the state a pass keeps in step: an analyzer without a model
    retains the count 0, and the controller holds the duration of the
    retained count. *)
Lemma iteration_in_sync (now : Qc) (w w' : pipeline) (o : outcome) :
  iteration video imencode now w = Some (o, w') ->
  (model (self w) = None ->
   latest_analysis_data (self w) !! "vehicle_count" = Some (PyInt 0)) ->
  in_sync w ->
  (model (self w') = None ->
   latest_analysis_data (self w') !! "vehicle_count" = Some (PyInt 0))
  ∧ in_sync w'.
Proof.
  unfold iteration. intros Hit Hnone (m & Hlatest & Hb & Hm & Hd).
  destruct (video !! position w) as [f|].
  2:{ injection Hit as _ <-. split; [exact Hnone|]. by exists m. }
  destruct (process_frame (self w) f) as [[[a1 pf] d]|] eqn:Hproc; [|discriminate].
  apply process_frame_cases in Hproc
    as [(Hmodel & -> & -> & ->) | (n & Hloaded & Hn & -> & ->)].
  - destruct (traffic_light.update_logic_with_analysis _ _) as [c'|] eqn:Hup;
      [|discriminate].
    destruct (update_logic_on_analysis _ _ _ _ Hb Hm Hup) as (Hb' & Hm' & Hd').
    assert (w' = {| self := if bool_decide (capture_interval (self w)
                                             < now - last_capture_time (self w))%Qc
                            then set_last_capture_time (self w) now else self w;
                    traffic_light_controller := c';
                    position := S (position w);
                    saved := if bool_decide (capture_interval (self w)
                                              < now - last_capture_time (self w))%Qc
                             then _save_frame (saved w) now f else saved w |}) as ->.
    { destruct (imencode f); by injection Hit as _ <-. }
    unfold in_sync. cbn [self traffic_light_controller].
    split.
    + intros _. destruct (bool_decide _); cbn; by apply Hnone.
    + exists 0. rewrite Hb', Hm', Hd'.
      destruct (bool_decide _); cbn; rewrite (Hnone Hmodel); auto.
  - destruct (traffic_light.update_logic_with_analysis _ _) as [c'|] eqn:Hup;
      [|discriminate].
    destruct (update_logic_on_analysis _ _ _ _ Hb Hm Hup) as (Hb' & Hm' & Hd').
    set (a1 := set_latest_analysis_data (self w) (analysis n "Processing")) in *.
    assert (w' = {| self := if bool_decide (capture_interval a1
                                             < now - last_capture_time a1)%Qc
                            then set_last_capture_time a1 now else a1;
                    traffic_light_controller := c';
                    position := S (position w);
                    saved := if bool_decide (capture_interval a1
                                              < now - last_capture_time a1)%Qc
                             then _save_frame (saved w) now pf else saved w |}) as ->.
    { destruct (imencode pf); by injection Hit as _ <-. }
    unfold in_sync. cbn [self traffic_light_controller].
    split.
    + intros Hmodel'. exfalso. destruct Hloaded as [detect Hdetect].
      destruct (bool_decide _); cbn in Hmodel'; congruence.
    + exists n. rewrite Hb', Hm', Hd'.
      destruct (bool_decide _); cbn; rewrite analysis_vehicle_count; auto.
Qed.

Lemma loop_in_sync (clock : list Qc) :
  ∀ (w w' : pipeline) (chunks : list string),
    loop video imencode clock w = (chunks, Running w') ->
    (model (self w) = None ->
     latest_analysis_data (self w) !! "vehicle_count" = Some (PyInt 0)) ->
    in_sync w -> in_sync w'.
Proof.
  induction clock as [|now later IH]; intros w w' chunks; cbn [loop].
  - by intros [= _ <-].
  - destruct (iteration video imencode now w) as [[o w1]|] eqn:Hit; [|discriminate].
    destruct (loop video imencode later w1) as [chunks1 st] eqn:Hloop.
    intros [= _ ->] Hnone Hsync.
    destruct (iteration_in_sync now w w1 o Hit Hnone Hsync) as [Hnone1 Hsync1].
    by apply (IH w1 w' chunks1).
Qed.

End with_file.

(** X14. The controller follows the retained result. At every point of a run of
    [generate_frames] on a freshly constructed analyzer and a controller that
    has not been updated yet, whether or not the model loaded, the suggested
    green duration of the controller is the clamp of 5 seconds plus half a
    second per vehicle of the count that [get_latest_analysis] returns. *)
Theorem pipeline_keeps_controller_in_sync
    (path : string) (now : Qc) (loaded : option (frame -> results)) (st : string)
    (video : list frame) (imencode : frame -> option string) (clock : list Qc)
    (chunks : list string) (w : pipeline) :
  generate_frames (Some video) imencode clock (init path now loaded)
    (traffic_light.mkController st (Qc_of_Z 5) (Qc_of_Z 20) (Qc_of_Z 5))
  = (chunks, Running w) ->
  ∃ n : Z,
    get_latest_analysis (self w) !! "vehicle_count" = Some (PyInt n)
    ∧ traffic_light.current_green_duration (traffic_light_controller w)
      = clamp (Qc_of_Z 5 + Qc_of_Z n * half)%Qc (Qc_of_Z 5) (Qc_of_Z 20).
Proof.
  intros Hrun.
  destruct (loop_in_sync video imencode clock _ w chunks Hrun)
    as (n & Hlatest & _ & _ & Hd).
  - intros _. reflexivity.
  - exists 0. split; [reflexivity|]. split; [reflexivity|].
    split; [reflexivity|]. cbn. unfold clamp.
    destruct (decide _) as [Hlo|_]; [by vm_compute in Hlo|].
    destruct (decide _) as [Hhi|_]; [by vm_compute in Hhi|].
    apply Qc_is_canon. reflexivity.
  - exists n. auto.
Qed.

Lemma pipeline_keeps_controller_in_sync_witness :
  get_latest_analysis (self sample_model_final) !! "vehicle_count" = Some (PyInt 2)
  ∧ ∃ n : Z,
      get_latest_analysis (self sample_model_final) !! "vehicle_count" = Some (PyInt n)
      ∧ traffic_light.current_green_duration (traffic_light_controller sample_model_final)
        = clamp (Qc_of_Z 5 + Qc_of_Z n * half)%Qc (Qc_of_Z 5) (Qc_of_Z 20).
Proof.
  split; [vm_compute; reflexivity|].
  apply (pipeline_keeps_controller_in_sync "static/videos/traffic.mp4" 0%Qc
           (Some sample_model) "red" [sample_frame 0] sample_imencode
           [Qc_of_Z 6; Qc_of_Z 7] (fst sample_model_run) sample_model_final).
  vm_compute. reflexivity.
Defined.

Lemma substring_skip (a s : string) (n : nat) :
  String.substring (String.length a) n (a +:+ s) = String.substring 0 n s.
Proof. induction a as [|c a IH]; [reflexivity|]. rewrite append_cons. exact IH. Qed.

Lemma substring_prefix (b c : string) :
  String.substring 0 (String.length b) (b +:+ c) = b.
Proof.
  induction b as [|ch b IH]; [by destruct c|].
  rewrite append_cons. cbn [String.length String.substring]. by rewrite IH.
Qed.

Lemma startswith_append (a s : string) : posixpath.startswith (a +:+ s) a = true.
Proof.
  unfold posixpath.startswith. induction a as [|c a IH]; [by destruct s|].
  rewrite append_cons. cbn [String.prefix].
  by destruct (ascii_dec c c).
Qed.

(** X15. The framing of a chunk can be undone: a chunk starts with the boundary
    line and the content-type header, ends with a line break, is 39 bytes
    longer than the encoded frame, and the encoded frame is read back from
    between header and line break; so different encodings give different
    chunks. *)
Theorem chunk_payload_of_bytes (frame_bytes other_bytes : string) :
  chunk_payload (chunk_of_bytes frame_bytes) = frame_bytes
  ∧ String.length (chunk_of_bytes frame_bytes)
    = (39 + String.length frame_bytes)%nat
  ∧ posixpath.startswith (chunk_of_bytes frame_bytes)
      ("--frame" +:+ crlf +:+ "Content-Type: image/jpeg" +:+ crlf +:+ crlf) = true
  ∧ posixpath.endswith (chunk_of_bytes frame_bytes) crlf = true
  ∧ (chunk_of_bytes frame_bytes = chunk_of_bytes other_bytes ->
     frame_bytes = other_bytes).
Proof.
  set (header := "--frame" +:+ crlf +:+ "Content-Type: image/jpeg" +:+ crlf +:+ crlf).
  assert (∀ b : string, chunk_of_bytes b = header +:+ (b +:+ crlf)) as Hshape
    by reflexivity.
  assert (∀ b : string,
            String.length (chunk_of_bytes b) = (39 + String.length b)%nat) as Hlen.
  { intros b. rewrite Hshape, !string_length_append.
    change (String.length header) with 37%nat.
    change (String.length crlf) with 2%nat. lia. }
  assert (∀ b : string, chunk_payload (chunk_of_bytes b) = b) as Hpayload.
  { intros b. unfold chunk_payload. rewrite Hlen, Hshape.
    replace (39 + String.length b - 39)%nat with (String.length b) by lia.
    rewrite (substring_skip header (b +:+ crlf) (String.length b) : 
               String.substring 37 _ _ = _).
    apply substring_prefix. }
  split; [apply Hpayload|]. split; [apply Hlen|].
  split; [rewrite Hshape; apply startswith_append|].
  split.
  - rewrite Hshape.
    replace (header +:+ (frame_bytes +:+ crlf))
      with ((header +:+ frame_bytes) +:+ crlf).
    + apply endswith_append.
    + unfold header. reflexivity.
  - intros Heq. rewrite <- (Hpayload frame_bytes), Heq. apply Hpayload.
Qed.

Section chunks_and_captures.

Variable video : list frame.
Variable imencode : frame -> option string.

Lemma iteration_outputs (a : VideoAnalyzer) (now : Qc) (w w' : pipeline)
    (o : outcome) :
  iteration video imencode now w = Some (o, w') ->
  model (self w) = model a ->
  model (self w') = model a
  ∧ Forall (processed_chunk a video imencode) (emitted o)
  ∧ (length (emitted o) ≤ 1)%nat
  ∧ (saved w' = saved w
     ∨ ∃ (f processed_frame : frame),
         f ∈ video ∧ processed a f = Some processed_frame
         ∧ saved w' = (now, processed_frame) :: saved w).
Proof.
  unfold iteration. intros Hit Hmodel.
  destruct (video !! position w) as [f|] eqn:Hread.
  2:{ injection Hit as <- <-. cbn. auto using Forall_nil. }
  assert (f ∈ video) as Hin by (by eapply list_elem_of_lookup_2).
  destruct (process_frame (self w) f) as [[[a1 pf] d]|] eqn:Hproc; [|discriminate].
  destruct (process_frame_inv _ _ _ _ _ Hproc) as (n & status & _ & _ & _ & Hm1 & _).
  assert (processed a f = Some pf) as Hpf.
  { rewrite <- (processed_model_only (self w) a f Hmodel).
    unfold processed. by rewrite Hproc. }
  assert (chunk_of a imencode f = chunk_of_bytes <$> imencode pf) as Hchunk.
  { rewrite <- (proj2 (process_frame_model_only imencode (self w) a f Hmodel)).
    unfold chunk_of. by rewrite Hproc. }
  destruct (traffic_light.update_logic_with_analysis _ d) as [c1|]; [|discriminate].
  assert (saved w' = (if bool_decide (capture_interval a1
                                       < now - last_capture_time a1)%Qc
                      then _save_frame (saved w) now pf else saved w)
          ∧ model (self w') = model a) as [Hsaved Hmodel'].
  { destruct (imencode pf); injection Hit as _ <-; cbn;
      (split; [reflexivity|]); destruct (bool_decide _); cbn; congruence. }
  split; [exact Hmodel'|]. split; [|split].
  - destruct (imencode pf) as [buffer|] eqn:Henc; injection Hit as <- _;
      cbn [emitted]; [|constructor].
    constructor; [|constructor]. exists f. by rewrite Hchunk.
  - destruct (imencode pf); injection Hit as <- _; cbn; lia.
  - rewrite Hsaved. destruct (bool_decide _); [right | by left].
    exists f, pf. auto.
Qed.

Lemma loop_outputs (a : VideoAnalyzer) (clock : list Qc) :
  ∀ (w : pipeline),
    model (self w) = model a ->
    Forall (processed_chunk a video imencode) (fst (loop video imencode clock w))
    ∧ (length (fst (loop video imencode clock w)) ≤ length clock)%nat
    ∧ ∀ w' : pipeline,
        snd (loop video imencode clock w) = Running w' ->
        ∃ recent : list (Qc * frame),
          saved w' = recent ++ saved w
          ∧ (length recent ≤ length clock)%nat
          ∧ Forall (λ call, fst call ∈ clock
                            ∧ ∃ f : frame, f ∈ video
                                           ∧ processed a f = Some (snd call))
                   recent.
Proof.
  induction clock as [|now later IH]; intros w Hmodel; cbn [loop].
  - split; [constructor|]. split; [reflexivity|].
    intros w' [= <-]. exists []. auto.
  - destruct (iteration video imencode now w) as [[o w1]|] eqn:Hit.
    2:{ split; [constructor|]. split; [cbn; lia | discriminate]. }
    destruct (iteration_outputs a now w w1 o Hit Hmodel)
      as (Hmodel1 & Hout & Hlen & Hsaved).
    destruct (IH w1 Hmodel1) as (Hchunks & Hlens & Hcalls).
    destruct (loop video imencode later w1) as [chunks st]. cbn [fst snd] in *.
    split; [by apply Forall_app|].
    split; [rewrite length_app; cbn [length]; lia|].
    intros w' ->. destruct (Hcalls w' eq_refl) as (recent & Hrecent & Hn & Hall).
    assert (Forall (λ call, fst call ∈ now :: later
                            ∧ ∃ f : frame, f ∈ video
                                           ∧ processed a f = Some (snd call))
                   recent) as Hall'.
    { eapply Forall_impl; [exact Hall|]. intros call [Ht Hf].
      split; [by apply list_elem_of_further | exact Hf]. }
    destruct Hsaved as [Hsame | (f & pf & Hin & Hpf & Hgrown)].
    + exists recent. rewrite Hrecent, Hsame. split; [done|].
      split; [cbn [length]; lia | exact Hall'].
    + exists (recent ++ [(now, pf)]). rewrite Hrecent, Hgrown.
      split; [by rewrite <- (assoc_L (++))|].
      split; [rewrite length_app; cbn [length]; lia|].
      apply Forall_app. split; [exact Hall'|].
      constructor; [|constructor]. split; [apply list_elem_of_here | eauto].
Qed.

End chunks_and_captures.

(** X16. What a run hands to the stream. Every chunk that [generate_frames]
    yields is the framed encoding of the processed form of a frame of the
    file, whatever state the analyzer was in when the run began, and a run
    yields at most one chunk per pass; a file that could not be opened
    yields none. *)
Theorem generate_frames_chunks
    (video : list frame) (imencode : frame -> option string) (clock : list Qc)
    (a : VideoAnalyzer) (c : traffic_light.TrafficLightController) :
  Forall (processed_chunk a video imencode)
         (fst (generate_frames (Some video) imencode clock a c))
  ∧ (length (fst (generate_frames (Some video) imencode clock a c))
     ≤ length clock)%nat
  ∧ generate_frames None imencode clock a c = ([], Returned).
Proof.
  destruct (loop_outputs video imencode a clock (start a c) eq_refl)
    as (Hchunks & Hlen & _).
  auto.
Qed.

(** X17. What a run hands to the capture sink. Every call of [_save_frame] in a
    run receives the processed form of a frame of the file, at a clock
    reading of one of the passes, and there is at most one call per pass. *)
Theorem generate_frames_captures
    (video : list frame) (imencode : frame -> option string) (clock : list Qc)
    (a : VideoAnalyzer) (c : traffic_light.TrafficLightController)
    (chunks : list string) (w : pipeline) :
  generate_frames (Some video) imencode clock a c = (chunks, Running w) ->
  (length (saved w) ≤ length clock)%nat
  ∧ Forall (λ call, fst call ∈ clock
                    ∧ ∃ f : frame, f ∈ video ∧ processed a f = Some (snd call))
           (saved w).
Proof.
  intros Hrun.
  destruct (loop_outputs video imencode a clock (start a c) eq_refl)
    as (_ & _ & Hcalls).
  destruct (Hcalls w) as (recent & Hsaved & Hlen & Hall).
  { cbn [generate_frames] in Hrun. by rewrite Hrun. }
  cbn [start saved] in Hsaved. rewrite app_nil_r in Hsaved. by subst.
Qed.

Lemma generate_frames_captures_witness :
  (length (saved sample_final) ≤ 1)%nat
  ∧ Forall (λ call, fst call ∈ [Qc_of_Z 6]
                    ∧ ∃ f : frame,
                        f ∈ [sample_frame 0]
                        ∧ processed (init "static/videos/traffic.mp4" 0%Qc None) f
                          = Some (snd call))
           (saved sample_final).
Proof.
  apply (generate_frames_captures [sample_frame 0] sample_imencode [Qc_of_Z 6]
           (init "static/videos/traffic.mp4" 0%Qc None) traffic_light.init
           (fst sample_run) sample_final).
  vm_compute. reflexivity.
Defined.

End pipeline_more.

(** ** How many captures a run makes *)

Section capture_count.
Import analyzer.

Lemma spaced_total (interval t0 : Qc) (log : list Qc) :
  ∀ t : Qc,
    spaced interval (log ++ [t0]) ->
    head (log ++ [t0]) = Some t ->
    (interval * Qc_of_Z (Z.of_nat (length log)) ≤ t - t0)%Qc.
Proof.
  induction log as [|t1 rest IH]; intros t Hsp Hhead.
  - injection Hhead as <-. change (Z.of_nat (length [])) with 0.
    rewrite Z2Qc_inj_0, Qcmult_0_r.
    replace (t0 - t0)%Qc with 0%Qc by ring. apply Qcle_refl.
  - injection Hhead as <-. destruct Hsp as [Hgap Hrest].
    destruct (rest ++ [t0]) as [|t' more] eqn:Hlog.
    { by destruct rest. }
    specialize (IH t' Hrest eq_refl).
    replace (Z.of_nat (length (t1 :: rest))) with (1 + Z.of_nat (length rest))
      by (cbn [length]; lia).
    rewrite Z2Qc_inj_add, Z2Qc_inj_1.
    replace (interval * (1 + Qc_of_Z (Z.of_nat (length rest))))%Qc
      with (interval + interval * Qc_of_Z (Z.of_nat (length rest)))%Qc by ring.
    replace (t1 - t0)%Qc with ((t1 - t') + (t' - t0))%Qc by ring.
    apply Qcplus_le_compat; [by apply Qclt_le_weak | exact IH].
Qed.

(** X18. Captures take time: in a run of [generate_frames] on an analyzer
    constructed at clock reading [t0], the timer (the clock reading of the
    latest capture, or [t0] when there was none) lies at least 5 seconds
    times the number of captures after [t0]. *)
Theorem generate_frames_capture_count
    (path : string) (t0 : Qc) (loaded : option (frame -> results))
    (c : traffic_light.TrafficLightController) (video : list frame)
    (imencode : frame -> option string) (clock : list Qc)
    (chunks : list string) (w : pipeline) :
  generate_frames (Some video) imencode clock (init path t0 loaded) c
  = (chunks, Running w) ->
  (Qc_of_Z 5 * Qc_of_Z (Z.of_nat (length (saved w)))
   ≤ last_capture_time (self w) - t0)%Qc.
Proof.
  intros Hrun.
  assert (timer_inv t0 w) as (_ & Hhead & Hsp).
  { apply (loop_timer_inv video imencode t0 clock
             (start (init path t0 loaded) c) w chunks Hrun).
    split; [reflexivity|]. split; [reflexivity|]. cbn. auto. }
  unfold capture_times in *.
  rewrite <- (length_fmap fst (saved w)).
  by apply spaced_total.
Qed.

Lemma generate_frames_capture_count_witness :
  (Qc_of_Z 5 * Qc_of_Z (Z.of_nat (length (saved sample_final)))
   ≤ last_capture_time (self sample_final) - 0)%Qc.
Proof.
  apply (generate_frames_capture_count "static/videos/traffic.mp4" 0%Qc None
           traffic_light.init [sample_frame 0] sample_imencode [Qc_of_Z 6]
           (fst sample_run) sample_final).
  vm_compute. reflexivity.
Defined.

End capture_count.
